(** * SketchToFace: the image preprocessor and the submission controller

    A shallow embedding of [src/component/home.tsx] (the component
    [SketchToFaceInterface]): the resize arithmetic of [processImage], the
    validation, request construction and outcome handling of
    [handleSubmit], the simulated progress timer, and the object-URL
    bookkeeping done by the render body and the [result] effect.

    Conventions of the embedding:
    - a JavaScript string is the list of its UTF-16 code units;
    - pixel dimensions are integers ([Z]); [Math.round (a / b)] is computed
      on the exact quotient, which is what the IEEE double computation
      returns for dimensions below 2^24 (there a quotient that is not a
      half-integer is further than one ulp away from the nearest one, so
      the rounded division falls on the same side of it);
    - the simulated progress is a rational ([Q]); [Math.random ()] is an
      arbitrary sample [r] with [0 <= r < 1], supplied by the environment;
    - the React state variables form a record, the browser resources
      (object URLs, interval timers, network, console) a second one, and
      handlers are written in a state-and-exception monad over both. *)

From Stdlib Require Import ZArith QArith Lia Lqa List Ascii String DecimalString.
From Stdlib Require Import DecimalPos DecimalZ.
From stdpp Require Import base option gmap list.

Open Scope Z_scope.

Set Warnings "-register-all,-clear-no-such-hyp".

(** ** JavaScript strings *)

Module JsString.

Abbreviation code_unit := N.
Abbreviation t := (list code_unit).

(** A source literal (the literals of the component are ASCII). *)
Definition lit (s : string) : t := map N_of_ascii (list_ascii_of_string s).

(** ECMAScript [WhiteSpace] and [LineTerminator] code points, the
    characters [String.prototype.trim] strips. *)
Definition is_white_space (c : code_unit) : bool :=
  ((c =? 9) || (c =? 10) || (c =? 11) || (c =? 12) || (c =? 13) ||
   (c =? 32) || (c =? 160) || (c =? 5760) ||
   ((8192 <=? c) && (c <=? 8202)) ||
   (c =? 8232) || (c =? 8233) || (c =? 8239) || (c =? 8287) ||
   (c =? 12288) || (c =? 65279))%N.

Fixpoint trimStart (s : t) : t :=
  match s with
  | [] => []
  | c :: r => if is_white_space c then trimStart r else s
  end.

Definition trimEnd (s : t) : t := rev (trimStart (rev s)).

Definition trim (s : t) : t := trimEnd (trimStart s).

(** ToBoolean on a string: the empty string is the only falsy one. *)
Definition truthy (s : t) : bool :=
  match s with [] => false | _ :: _ => true end.

Fixpoint startsWith (p s : t) : bool :=
  match p, s with
  | [], _ => true
  | _ :: _, [] => false
  | a :: p', b :: s' => (a =? b)%N && startsWith p' s'
  end.

(** Number::toString on an integer (decimal digits, leading minus). *)
Definition of_int (z : Z) : t := lit (NilZero.string_of_int (Z.to_int z)).

End JsString.

Abbreviation jsstring := (list JsString.code_unit).
Abbreviation lit := JsString.lit.

(** ** Numbers *)

(** [Math.round (a / b)] for [0 < b]: the integer nearest to the quotient,
    a tie going up, that is [floor (a / b + 1/2)]. *)
Definition math_round_div (a b : Z) : Z := (2 * a + b) / (2 * b).

Definition MAX_WIDTH : Z := 800.
Definition MAX_HEIGHT : Z := 800.

(** The dimension computation of [img.onload] in [processImage]:
    the two guarded assignments, in the order of the source. *)
Definition scaled_dimensions (img_width img_height : Z) : Z * Z :=
  let width := img_width in
  let height := img_height in
  let '(width, height) :=
    if MAX_WIDTH <? width
    then (MAX_WIDTH, math_round_div (height * MAX_WIDTH) width)
    else (width, height) in
  let '(width, height) :=
    if MAX_HEIGHT <? height
    then (math_round_div (width * MAX_HEIGHT) height, MAX_HEIGHT)
    else (width, height) in
  (width, height).

(** ** Files and blobs *)

(** A blob: its bytes, its MIME type and, when the bytes decode as a raster
    image, the pixel dimensions an [Image] element reports for it. *)
Record Blob := mkBlob {
  blob_bytes : list N;
  blob_type : jsstring;
  blob_image : option (Z * Z)
}.

Record File := mkFile {
  file_blob : Blob;
  file_name : jsstring;
  file_lastModified : Z
}.

Definition file_type (f : File) : jsstring := blob_type (file_blob f).
Definition file_image (f : File) : option (Z * Z) := blob_image (file_blob f).

(** A URL string: either one minted by [URL.createObjectURL] (they all
    read [blob:...]) or any other text. *)
Inductive Url :=
| ObjectUrl (id : nat)
| PlainUrl (s : jsstring).

Definition url_startsWith_blob (u : Url) : bool :=
  match u with
  | ObjectUrl _ => true
  | PlainUrl s => JsString.startsWith (lit "blob:") s
  end.

(** ** JSON values (bodies of error responses) *)

Inductive Json :=
| JNull
| JBool (b : bool)
| JNum (q : Q)
| JStr (s : jsstring)
| JArr (l : list Json)
| JObj (fields : list (jsstring * Json)).

Definition jsstring_eqb (a b : jsstring) : bool := bool_decide (a = b).

(** [JSON.parse] keeps the last of several members with one name. *)
Fixpoint obj_get (k : jsstring) (fields : list (jsstring * Json)) : option Json :=
  match fields with
  | [] => None
  | (k', v) :: r =>
      match obj_get k r with
      | Some v' => Some v'
      | None => if jsstring_eqb k k' then Some v else None
      end
  end.

(** ToBoolean on a parsed JSON value. *)
Definition json_truthy (j : Json) : bool :=
  match j with
  | JNull => false
  | JBool b => b
  | JNum q => negb (Qeq_bool q 0)
  | JStr s => JsString.truthy s
  | JArr _ => true
  | JObj _ => true
  end.

(** Reading the member [k] of a parsed value, for the member names
    [detail] and [message] the component reads: [None] is the TypeError
    raised on [null]; [Some None] is [undefined]. *)
Definition json_member (k : jsstring) (j : Json) : option (option Json) :=
  match j with
  | JNull => None
  | JObj fields => Some (obj_get k fields)
  | _ => Some None
  end.

Definition value_truthy (v : option Json) : bool :=
  match v with
  | None => false
  | Some j => json_truthy j
  end.

(** ** Component state: the [useState] variables of the component *)

Inductive NotificationType := success | error.

Record Notification := mkNotification {
  ntype : NotificationType;
  nmessage : jsstring
}.

Record Result := mkResult {
  imageUrl : option Url;
  message : option jsstring
}.

Record State := mkState {
  selectedFile : option File;
  description : jsstring;
  selectedGender : jsstring;
  isLoading : bool;
  loadingProgress : Q;
  errorMessage : jsstring;
  result : option Result;
  notification : option Notification;
  isModalOpen : bool
}.

Definition initial_state : State :=
  mkState None [] [] false 0%Q [] None None false.

(** ** Browser resources *)

Inductive FormValue :=
| FormFile (f : File)
| FormString (s : jsstring).

(** A [FormData] body: the appended entries, in order. *)
Abbreviation FormData := (list (jsstring * FormValue)).

Record Request := mkRequest {
  req_url : jsstring;
  req_method : jsstring;
  req_body : FormData
}.

(** A value thrown inside [handleSubmit]: an [Error] built by the handler
    around the value it was given, a rejection of [fetch], a rejection of
    the body read, or the TypeError of a member access on [null]. *)
Inductive Thrown :=
| ErrorObject (msg : Json)
| FetchRejected
| BodyRejected
| NullAccess.

Inductive TimeoutCallback :=
| LowerBusyFlag.

Inductive Event :=
| EvCreateObjectURL (id : nat)
| EvRevokeObjectURL (u : Url)
| EvSetInterval (id : nat) (ms : Z)
| EvClearInterval (id : nat)
| EvSetTimeout (cb : TimeoutCallback) (ms : Z)
| EvFetch (req : Request)
| EvConsoleError (label : jsstring) (e : Thrown).

Record Browser := mkBrowser {
  url_next : nat;
  url_store : gmap nat Blob;
  timer_next : nat;
  intervals : gset nat;
  log : list Event
}.

Definition initial_browser : Browser := mkBrowser 0 ∅ 0 ∅ [].

(** The component instance: its state, the browser around it, and the
    [result] value captured by the cleanup of the last run of the
    [useEffect (..., [result])] hook ([None] before the first commit). *)
Record App := mkApp {
  st : State;
  br : Browser;
  effect_result : option (option Result)
}.

Definition initial_app : App := mkApp initial_state initial_browser None.

(** ** The handler monad: state over [App], with exceptions *)

Inductive Completion (A : Type) :=
| Normal (a : A)
| Throw (e : Thrown).
Arguments Normal {A} a.
Arguments Throw {A} e.

Definition M (A : Type) : Type := App → Completion A * App.

#[export] Instance M_ret : MRet M := λ A a app, (Normal a, app).
#[export] Instance M_bind : MBind M := λ A B f m app,
  match m app with
  | (Normal a, app') => f a app'
  | (Throw e, app') => (Throw e, app')
  end.

Definition throw {A} (e : Thrown) : M A := λ app, (Throw e, app).

Definition try_catch {A} (body : M A) (handler : Thrown → M A) : M A :=
  λ app,
    match body app with
    | (Normal a, app') => (Normal a, app')
    | (Throw e, app') => handler e app'
    end.

Definition get_state : M State := λ app, (Normal (st app), app).

Definition modify_state (f : State → State) : M unit :=
  λ app, (Normal tt, mkApp (f (st app)) (br app) (effect_result app)).

Definition modify_browser (f : Browser → Browser) : M unit :=
  λ app, (Normal tt, mkApp (st app) (f (br app)) (effect_result app)).

Definition emit (e : Event) : M unit :=
  modify_browser (λ b, mkBrowser (url_next b) (url_store b) (timer_next b)
                                  (intervals b) (log b ++ [e])).

(** The final [App] of a run, and its completion. *)
Definition exec {A} (m : M A) (app : App) : App := snd (m app).
Definition completion {A} (m : M A) (app : App) : Completion A := fst (m app).

(** *** State setters *)

Definition setSelectedFile (v : option File) : M unit :=
  modify_state (λ s, mkState v (description s) (selectedGender s) (isLoading s)
    (loadingProgress s) (errorMessage s) (result s) (notification s) (isModalOpen s)).

Definition setDescription (v : jsstring) : M unit :=
  modify_state (λ s, mkState (selectedFile s) v (selectedGender s) (isLoading s)
    (loadingProgress s) (errorMessage s) (result s) (notification s) (isModalOpen s)).

Definition setSelectedGender (v : jsstring) : M unit :=
  modify_state (λ s, mkState (selectedFile s) (description s) v (isLoading s)
    (loadingProgress s) (errorMessage s) (result s) (notification s) (isModalOpen s)).

Definition setIsLoading (v : bool) : M unit :=
  modify_state (λ s, mkState (selectedFile s) (description s) (selectedGender s) v
    (loadingProgress s) (errorMessage s) (result s) (notification s) (isModalOpen s)).

(** [setLoadingProgress] takes an updater, as in [setLoadingProgress (prev => ...)];
    a plain value [v] is the constant updater. *)
Definition setLoadingProgress (f : Q → Q) : M unit :=
  modify_state (λ s, mkState (selectedFile s) (description s) (selectedGender s) (isLoading s)
    (f (loadingProgress s)) (errorMessage s) (result s) (notification s) (isModalOpen s)).

Definition setErrorMessage (v : jsstring) : M unit :=
  modify_state (λ s, mkState (selectedFile s) (description s) (selectedGender s) (isLoading s)
    (loadingProgress s) v (result s) (notification s) (isModalOpen s)).

Definition setResult (v : option Result) : M unit :=
  modify_state (λ s, mkState (selectedFile s) (description s) (selectedGender s) (isLoading s)
    (loadingProgress s) (errorMessage s) v (notification s) (isModalOpen s)).

Definition setNotification (v : option Notification) : M unit :=
  modify_state (λ s, mkState (selectedFile s) (description s) (selectedGender s) (isLoading s)
    (loadingProgress s) (errorMessage s) (result s) v (isModalOpen s)).

Definition setIsModalOpen (v : bool) : M unit :=
  modify_state (λ s, mkState (selectedFile s) (description s) (selectedGender s) (isLoading s)
    (loadingProgress s) (errorMessage s) (result s) (notification s) v).

(** *** Browser primitives *)

(** [URL.createObjectURL]: a fresh handle, registered in the URL store. *)
Definition createObjectURL (b : Blob) : M Url :=
  λ app,
    let w := br app in
    let id := url_next w in
    (Normal (ObjectUrl id),
     mkApp (st app)
           (mkBrowser (S id) (<[id := b]> (url_store w)) (timer_next w)
                      (intervals w) (log w ++ [EvCreateObjectURL id]))
           (effect_result app)).

(** [URL.revokeObjectURL]: drops the handle; a URL that is not registered
    is ignored. *)
Definition revokeObjectURL (u : Url) : M unit :=
  modify_browser (λ w,
    mkBrowser (url_next w)
              (match u with
               | ObjectUrl id => delete id (url_store w)
               | PlainUrl _ => url_store w
               end)
              (timer_next w) (intervals w) (log w ++ [EvRevokeObjectURL u])).

(** [setInterval (callback, ms)]: a fresh timer id, live until cleared. The
    component installs one callback only, the progress tick below. *)
Definition setInterval (ms : Z) : M nat :=
  λ app,
    let w := br app in
    let id := timer_next w in
    (Normal id,
     mkApp (st app)
           (mkBrowser (url_next w) (url_store w) (S id)
                      ({[ id ]} ∪ intervals w) (log w ++ [EvSetInterval id ms]))
           (effect_result app)).

Definition clearInterval (id : nat) : M unit :=
  modify_browser (λ w,
    mkBrowser (url_next w) (url_store w) (timer_next w)
              (intervals w ∖ {[ id ]}) (log w ++ [EvClearInterval id])).

Definition setTimeout (cb : TimeoutCallback) (ms : Z) : M unit :=
  emit (EvSetTimeout cb ms).

Definition console_error (label : jsstring) (e : Thrown) : M unit :=
  emit (EvConsoleError label e).

(** ** The simulated progress timer *)

(** The updater passed to [setLoadingProgress] by the interval callback of
    [handleSubmit]; [random] is the value of [Math.random ()]. *)
Definition progress_tick (random : Q) (prev : Q) : Q :=
  if Qlt_le_dec prev 85 then (prev + random * 3)%Q else prev.

(** One firing of the interval timer [id]: nothing once it is cleared. *)
Definition interval_fires (id : nat) (random : Q) : M unit :=
  λ app,
    if bool_decide (id ∈ intervals (br app))
    then setLoadingProgress (progress_tick random) app
    else (Normal tt, app).

(** The firings that happen while the handler is suspended in an [await]. *)
Fixpoint elapse (id : nat) (randoms : list Q) : M unit :=
  match randoms with
  | [] => mret tt
  | r :: rest => interval_fires id r;; elapse id rest
  end.

(** ** The generation endpoint, as seen by the handler *)

Record Response := mkResponse {
  status : Z;
  statusText : jsstring;
  (** what [response.json ()] resolves to; [None] when it rejects *)
  body_json : option Json;
  (** what [response.blob ()] resolves to; [None] when it rejects *)
  body_blob : option Blob
}.

(** [response.ok]: the status is in the range 200-299. *)
Definition response_ok (r : Response) : bool :=
  (200 <=? status r) && (status r <=? 299).

Inductive FetchOutcome :=
| NetworkFailure
| Responded (r : Response).

(** What the world does during one submission: the timer firings before
    the response arrives, the response or the failure, and the firings
    while the body is read. *)
Record SubmitEnv := mkSubmitEnv {
  ticks_pending : list Q;
  fetch_outcome : FetchOutcome;
  ticks_body : list Q
}.

Definition API_URL : jsstring := lit "http://216.81.248.20:8000/generate-image".

Definition fetch (env : SubmitEnv) (timer : nat) (req : Request) : M Response :=
  emit (EvFetch req);;
  elapse timer (ticks_pending env);;
  match fetch_outcome env with
  | NetworkFailure => throw FetchRejected
  | Responded r => mret r
  end.

Definition response_json (env : SubmitEnv) (timer : nat) (r : Response) : M Json :=
  elapse timer (ticks_body env);;
  match body_json r with
  | None => throw BodyRejected
  | Some j => mret j
  end.

Definition response_blob (env : SubmitEnv) (timer : nat) (r : Response) : M Blob :=
  elapse timer (ticks_body env);;
  match body_blob r with
  | None => throw BodyRejected
  | Some b => mret b
  end.

(** Member access [errorData.k]; on [null] it throws. *)
Definition member (k : jsstring) (j : Json) : M (option Json) :=
  match json_member k j with
  | None => throw NullAccess
  | Some v => mret v
  end.

(** ** [handleSubmit] *)

Definition msg_no_sketch : jsstring := lit "Please upload a sketch first".
Definition msg_no_description : jsstring := lit "Please provide a description".
Definition msg_no_gender : jsstring := lit "Please select a gender".
Definition msg_generic_failure : jsstring :=
  lit "Failed to process the sketch. Please try again.".
Definition msg_default_detail : jsstring := lit "Failed to process the sketch".

(** The template literal [`${description} (${selectedGender})`]. *)
Definition combinedPrompt (description selectedGender : jsstring) : jsstring :=
  description ++ lit " (" ++ selectedGender ++ lit ")".

(** The non-ok branch: compute the local [errorMessage] and throw it. *)
Definition reject_response (env : SubmitEnv) (timer : nat) (response : Response)
  : M unit :=
  errorMessage ← try_catch
    (errorData ← response_json env timer response;
     detail ← member (lit "detail") errorData;
     if value_truthy detail then mret (default JNull detail)
     else
       message ← member (lit "message") errorData;
       if value_truthy message then mret (default JNull message)
       else mret (JStr msg_default_detail))
    (λ _, mret (JStr (lit "Server error: " ++ JsString.of_int (status response)
                        ++ lit " " ++ statusText response)));
  throw (ErrorObject errorMessage).

Definition handleSubmit (env : SubmitEnv) : M unit :=
  s ← get_state;
  setErrorMessage [];;
  setNotification None;;
  match selectedFile s with
  | None =>
      setNotification (Some (mkNotification error msg_no_sketch))
  | Some file =>
      if negb (JsString.truthy (JsString.trim (description s))) then
        setNotification (Some (mkNotification error msg_no_description))
      else if negb (JsString.truthy (selectedGender s)) then
        setNotification (Some (mkNotification error msg_no_gender))
      else
        setIsLoading true;;
        setLoadingProgress (λ _, 0%Q);;
        progressInterval ← setInterval 200;
        try_catch
          (let formData : FormData :=
             [(lit "file", FormFile file);
              (lit "prompt", FormString (combinedPrompt (description s) (selectedGender s)))] in
           response ← fetch env progressInterval (mkRequest API_URL (lit "POST") formData);
           (if negb (response_ok response)
            then reject_response env progressInterval response
            else mret tt);;
           imageBlob ← response_blob env progressInterval response;
           imageUrl ← createObjectURL imageBlob;
           let apiResult :=
             mkResult (Some imageUrl) (Some (lit "Face successfully generated!")) in
           clearInterval progressInterval;;
           setLoadingProgress (λ _, 100%Q);;
           setResult (Some apiResult);;
           setNotification
             (Some (mkNotification success
                      (lit "Face was successfully generated from your sketch!")));;
           setIsModalOpen true;;
           setTimeout LowerBusyFlag 500)
          (λ err,
             console_error (lit "Error processing sketch:") err;;
             clearInterval progressInterval;;
             setNotification (Some (mkNotification error msg_generic_failure));;
             setTimeout LowerBusyFlag 500)
  end.

(** ** [processImage] *)

(** What the runtime offers to the preprocessor: whether
    [canvas.getContext ('2d')] returns a context, the bytes [canvas.toBlob]
    hands to its callback for a canvas of the given size and a MIME type
    ([None] is the [null] blob), and the clock read by [new Date ()]. *)
Record Runtime := mkRuntime {
  canvas_2d_available : bool;
  canvas_toBlob : Z → Z → jsstring → option (list N);
  clock_now : Z
}.

Definition msg_optimized : jsstring := lit "Image uploaded and optimized successfully!".
Definition msg_load_error : jsstring := lit "Error loading image. Please try another file.".

(** [img.onload]: the image decoded, with pixel size [img_width] x [img_height]. *)
Definition img_onload (rt : Runtime) (file : File) (objectUrl : Url)
    (img_width img_height : Z) : M unit :=
  revokeObjectURL objectUrl;;
  let '(width, height) := scaled_dimensions img_width img_height in
  if canvas_2d_available rt then
    match canvas_toBlob rt width height (file_type file) with
    | Some bytes =>
        let resizedFile :=
          mkFile (mkBlob bytes (file_type file) (Some (width, height)))
                 (file_name file) (clock_now rt) in
        setSelectedFile (Some resizedFile);;
        setNotification (Some (mkNotification success msg_optimized))
    | None => mret tt
    end
  else
    setSelectedFile (Some file).

(** [img.onerror]: the bytes do not decode. *)
Definition img_onerror (objectUrl : Url) : M unit :=
  revokeObjectURL objectUrl;;
  setNotification (Some (mkNotification error msg_load_error)).

Definition processImage (rt : Runtime) (file : File) : M unit :=
  objectUrl ← createObjectURL (file_blob file);
  match file_image file with
  | Some (img_width, img_height) => img_onload rt file objectUrl img_width img_height
  | None => img_onerror objectUrl
  end.

(** The test [file.type.match (/^image\/(jpg|jpeg|png|gif)$/)]. *)
Definition accepted_type (ty : jsstring) : bool :=
  bool_decide (ty ∈ [lit "image/jpg"; lit "image/jpeg"; lit "image/png"; lit "image/gif"]).

Definition handleFileSelect (rt : Runtime) (files : list File) : M unit :=
  match files with
  | [] => mret tt
  | file :: _ =>
      if accepted_type (file_type file) then processImage rt file
      else setNotification
             (Some (mkNotification error
                      (lit "Please select a valid image file (JPG, PNG or GIF)")))
  end.

(** ** Rendering, the [result] effect, and the buttons that drop artifacts *)

(** The object URLs minted by one evaluation of the component body: the
    [src] of the sketch preview, and the [sketchUrl] prop of the modal. *)
Definition render : M unit :=
  s ← get_state;
  match selectedFile s with
  | Some f => _ ← createObjectURL (file_blob f); mret tt
  | None => mret tt
  end;;
  match result s, selectedFile s with
  | Some _, Some f => _ ← createObjectURL (file_blob f); mret tt
  | _, _ => mret tt
  end.

(** The cleanup returned by the effect, closed over the [result] it saw. *)
Definition result_cleanup (r : option Result) : M unit :=
  match r with
  | Some (mkResult (Some u) _) =>
      if url_startsWith_blob u then revokeObjectURL u else mret tt
  | _ => mret tt
  end.

#[export] Instance Url_eq_dec : EqDecision Url.
Proof. solve_decision. Defined.
#[export] Instance Result_eq_dec : EqDecision Result.
Proof. solve_decision. Defined.

(** After a commit React runs the effect when [result] changed: first the
    previous cleanup, then the effect body (which only installs the next
    cleanup). *)
Definition commit_effects : M unit :=
  λ app,
    let cur := result (st app) in
    match effect_result app with
    | None => (Normal tt, mkApp (st app) (br app) (Some cur))
    | Some prev =>
        if bool_decide (prev = cur) then (Normal tt, app)
        else
          let '(c, app') := result_cleanup prev app in
          (c, mkApp (st app') (br app') (Some cur))
    end.

(** A re-render after a handler changed the state. *)
Definition rerender : M unit := render;; commit_effects.

(** Unmounting runs the pending cleanup. *)
Definition unmount : M unit :=
  λ app,
    match effect_result app with
    | None => (Normal tt, app)
    | Some prev => result_cleanup prev app
    end.

(** The "Remove image" button. *)
Definition onClick_removeImage : M unit := setSelectedFile None.

(** The "Create New Image" button of the result panel. *)
Definition onClick_createNew_panel : M unit :=
  s ← get_state;
  result_cleanup (result s);;
  setResult None;;
  setSelectedFile None;;
  setDescription [];;
  setSelectedGender [].

(** The "Create New Image" button of the modal. *)
Definition onClick_createNew_modal : M unit :=
  s ← get_state;
  result_cleanup (result s);;
  setIsModalOpen false;;
  setResult None;;
  setSelectedFile None;;
  setDescription [];;
  setSelectedGender [].

(** The live object URLs and interval timers of an application. *)
Definition live_urls (app : App) : gset nat := dom (url_store (br app)).
Definition live_intervals (app : App) : gset nat := intervals (br app).

(** Counting events of one kind in a log. *)
Definition is_clear_of (id : nat) (e : Event) : bool :=
  match e with EvClearInterval id' => Nat.eqb id id' | _ => false end.
Definition is_clear (e : Event) : bool :=
  match e with EvClearInterval _ => true | _ => false end.
Definition is_set_interval (e : Event) : bool :=
  match e with EvSetInterval _ _ => true | _ => false end.

Definition count (p : Event → bool) (l : list Event) : nat :=
  length (List.filter p l).

Definition fetches (l : list Event) : list Request :=
  omap (λ e, match e with EvFetch r => Some r | _ => None end) l.

(** ** Vocabulary of the statements *)

(** The progress value after a run of timer firings. *)
Definition run_ticks (randoms : list Q) (p : Q) : Q :=
  fold_left (λ p r, progress_tick r p) randoms p.

(** The events a handler adds to the log of [app]. *)
Definition new_events {A} (m : M A) (app : App) : list Event :=
  drop (length (log (br app))) (log (br (exec m app))).

(** The three required inputs, in the order [handleSubmit] checks them, and
    what it means for each to be missing. *)
Inductive Field := FImage | FDescription | FGender.

Definition missing (s : State) (f : Field) : bool :=
  match f with
  | FImage => match selectedFile s with None => true | Some _ => false end
  | FDescription => forallb JsString.is_white_space (description s)
  | FGender => match selectedGender s with [] => true | _ :: _ => false end
  end.

Definition first_missing (s : State) : option Field :=
  List.find (missing s) [FImage; FDescription; FGender].

Definition message_for (f : Field) : jsstring :=
  match f with
  | FImage => msg_no_sketch
  | FDescription => msg_no_description
  | FGender => msg_no_gender
  end.

(** The inputs pass validation, with [file] the selected image. *)
Definition passes_validation (s : State) (file : File) : Prop :=
  selectedFile s = Some file ∧
  JsString.trim (description s) ≠ [] ∧
  selectedGender s ≠ [].

(** The status line of a response, as the handler formats it. *)
Definition status_line (r : Response) : jsstring :=
  lit "Server error: " ++ JsString.of_int (status r) ++ lit " " ++ statusText r.

Definition error_label : jsstring := lit "Error processing sketch:".

(** The values logged to the console by the events of a list. *)
Definition console_entries (l : list Event) : list Thrown :=
  omap (λ e, match e with EvConsoleError _ t => Some t | _ => None end) l.

(** The request the interface description asks for: a POST to the fixed
    endpoint whose multipart body carries the image under [file] and the
    text [<description> (<gender>)] under [prompt]. *)
Definition submission_request (file : File) (description gender : jsstring) : Request :=
  mkRequest API_URL (lit "POST")
    [(lit "file", FormFile file);
     (lit "prompt", FormString (description ++ lit " (" ++ gender ++ lit ")"))].

(** A member of a parsed body that can serve as the detail: present and
    truthy. *)
Definition usable_member (k : jsstring) (j : Json) : option Json :=
  match json_member k j with
  | Some (Some v) => if json_truthy v then Some v else None
  | _ => None
  end.

(** The error detail as the interface description words it: the [detail]
    or [message] member of the JSON body, else the status line. *)
Definition described_detail (r : Response) : Json :=
  match body_json r with
  | Some j =>
      match usable_member (lit "detail") j, usable_member (lit "message") j with
      | Some d, _ => d
      | None, Some m => m
      | None, None => JStr (status_line r)
      end
  | None => JStr (status_line r)
  end.

(** The error detail with the preset text taken into account: a body that
    parses to a value other than [null] and offers neither member leaves the
    preset text in place; the status line is used when the body does not
    parse or parses to [null]. *)
Definition logged_detail (r : Response) : Json :=
  match body_json r with
  | Some JNull | None => JStr (status_line r)
  | Some j =>
      match usable_member (lit "detail") j, usable_member (lit "message") j with
      | Some d, _ => d
      | None, Some m => m
      | None, None => JStr msg_default_detail
      end
  end.

(** A sample of [Math.random ()]. *)
Definition random_sample (r : Q) : Prop := (0 <= r ∧ r < 1)%Q.

(** ** Example inputs *)

Definition jpeg_1600x1200 : File :=
  mkFile (mkBlob [255; 216; 255]%N (lit "image/jpeg") (Some (1600, 1200)))
         (lit "sketch.jpg") 0.

Definition png_640x480 : File :=
  mkFile (mkBlob [137; 80; 78; 71]%N (lit "image/png") (Some (640, 480)))
         (lit "sketch.png") 0.

(** A runtime with a working canvas, and one without a 2D context. *)
Definition canvas_runtime : Runtime :=
  mkRuntime true (λ _ _ _, Some [1; 2; 3]%N) 1000.

Definition no_canvas_runtime : Runtime :=
  mkRuntime false (λ _ _ _, None) 1000.

(** The state after the user picked a sketch, typed a description and
    chose a gender. *)
Definition filled_state : State :=
  mkState (Some png_640x480) (lit "a smiling man") (lit "male")
          false 0%Q [] None None false.

Definition filled_app : App := mkApp filled_state initial_browser None.

(** States with missing inputs: nothing filled in but a description of
    blanks, and a sketch with a description of blanks and no gender. *)
Definition blank_state : State :=
  mkState None (lit "   ") [] false 0%Q [] None None false.

Definition blank_description_state : State :=
  mkState (Some png_640x480) [32; 9; 10; 160]%N [] false 0%Q [] None None false.


Definition generated_png : Blob :=
  mkBlob [137; 80; 78; 71]%N (lit "image/png") (Some (512, 512)).

Definition ok_response : Response :=
  mkResponse 200 (lit "OK") None (Some generated_png).

(** A server error whose body is the JSON object without members. *)
Definition error_response_empty_object : Response :=
  mkResponse 500 (lit "Internal Server Error") (Some (JObj [])) None.

(** A server error whose body is not JSON. *)
Definition error_response_html : Response :=
  mkResponse 502 (lit "Bad Gateway") None None.

Definition env_success : SubmitEnv :=
  mkSubmitEnv [1 # 2; 1 # 3]%Q (Responded ok_response) [1 # 4]%Q.

Definition env_server_error : SubmitEnv :=
  mkSubmitEnv [1 # 2]%Q (Responded error_response_empty_object) [].

Definition env_bad_gateway : SubmitEnv :=
  mkSubmitEnv [1 # 2]%Q (Responded error_response_html) [].

(** The server stays silent for 57 firings of the timer, each drawing
    [Math.random () = 0.5], and then the connection fails. *)
Definition env_slow_failure : SubmitEnv :=
  mkSubmitEnv (repeat (1 # 2)%Q 57) NetworkFailure [].

(** A session on a runtime with a working canvas: the component mounts,
    the user picks a sketch, types one character of the description (the
    component renders again), removes the sketch, and the component
    unmounts. *)
Definition sketch_session : M unit :=
  rerender;;
  processImage canvas_runtime png_640x480;; rerender;;
  setDescription (lit "a");; rerender;;
  onClick_removeImage;; rerender;;
  unmount.

(** A session that ends with a result: mount, fill the form, submit with
    success, start over from the modal, unmount. *)
Definition result_session : M unit :=
  rerender;;
  setDescription (lit "a smiling man");; rerender;;
  setSelectedGender (lit "male");; rerender;;
  handleSubmit env_success;; rerender;;
  onClick_createNew_modal;; rerender;;
  unmount.

(** ** Symbolic execution of handlers *)

Ltac mrun :=
  cbv beta iota zeta delta
    [exec completion new_events fst snd
     handleSubmit fetch response_json response_blob member
     processImage img_onload img_onerror handleFileSelect
     render rerender commit_effects unmount result_cleanup
     onClick_removeImage onClick_createNew_panel onClick_createNew_modal
     mbind M_bind mret M_ret throw try_catch get_state modify_state modify_browser emit
     setSelectedFile setDescription setSelectedGender setIsLoading setLoadingProgress
     setErrorMessage setResult setNotification setIsModalOpen
     createObjectURL revokeObjectURL setInterval clearInterval setTimeout console_error
     st br effect_result selectedFile description selectedGender isLoading loadingProgress
     errorMessage result notification isModalOpen
     url_next url_store timer_next intervals log live_urls live_intervals
     negb JsString.truthy default].

(** ** The other handlers of [SketchToFaceInterface] *)

(** The two view flags that [handleSubmit] and [processImage] do not read. *)
Record View := mkView {
  dragOver : bool;
  isImageViewerOpen : bool
}.

Definition handleDragOver (v : View) : View := mkView true (isImageViewerOpen v).
Definition handleDragLeave (v : View) : View := mkView false (isImageViewerOpen v).

Definition msg_invalid_drop : jsstring :=
  lit "Please drop a valid image file (JPG, PNG or GIF)".
Definition msg_invalid_select : jsstring :=
  lit "Please select a valid image file (JPG, PNG or GIF)".

(** [handleDrop]: the drag highlight is switched off, then the first of the
    dropped files goes through the same gate as a selected file. *)
Definition handleDrop (rt : Runtime) (files : list File) (v : View) : View * M unit :=
  (mkView false (isImageViewerOpen v),
   match files with
   | [] => mret tt
   | file :: _ =>
       if accepted_type (file_type file) then processImage rt file
       else setNotification (Some (mkNotification error msg_invalid_drop))
   end).

(** The callback of the [setTimeout] that ends both branches of
    [handleSubmit]. *)
Definition timeout_fires (cb : TimeoutCallback) : M unit :=
  match cb with
  | LowerBusyFlag => setIsLoading false
  end.

(** *** The download buttons

    The result panel, the modal and [ImageViewer.handleDownload] run the
    same statements: when the URL is truthy an anchor is created, appended
    to the body, clicked and removed. *)

Record Dom := mkDom {
  body_children : list nat;
  element_next : nat;
  (** the clicks on download anchors: the [href] and the [download] name *)
  downloads : list (Url * jsstring)
}.

Definition url_truthy (u : Url) : bool :=
  match u with
  | ObjectUrl _ => true
  | PlainUrl s => JsString.truthy s
  end.

(** The template literal [`generated-face-${Date.now()}.png`]. *)
Definition download_name (now : Z) : jsstring :=
  lit "generated-face-" ++ JsString.of_int now ++ lit ".png".

Definition appendChild (node : nat) (d : Dom) : Dom :=
  mkDom (body_children d ++ [node]) (element_next d) (downloads d).

Definition removeChild (node : nat) (d : Dom) : Dom :=
  mkDom (List.filter (λ n, negb (Nat.eqb n node)) (body_children d))
        (element_next d) (downloads d).

Definition handleDownload (imageUrl : option Url) (now : Z) (d : Dom) : Dom :=
  match imageUrl with
  | Some u =>
      if url_truthy u then
        let link := element_next d in
        let d := mkDom (body_children d) (S link) (downloads d) in
        let d := appendChild link d in
        let d := mkDom (body_children d) (element_next d)
                       (downloads d ++ [(u, download_name now)]) in
        removeChild link d
      else d
  | None => d
  end.

(** *** The notification timer

    [useEffect (..., [notification])]: a notification starts a 5000 ms
    timeout that clears it, and the cleanup of the effect clears that
    timeout. *)

Record HideTimers := mkHideTimers {
  timeout_next : nat;
  (** the pending timeouts, with their delays *)
  timeouts : gmap nat Z;
  (** the timeout the installed cleanup will clear, if a cleanup is installed *)
  hide_cleanup : option nat
}.

Definition initial_hide_timers : HideTimers := mkHideTimers 0 ∅ None.

(** One run of the effect for the committed [notification]: the cleanup of
    the previous run first, then the body. *)
Definition notification_effect (notification : option Notification) (t : HideTimers)
  : HideTimers :=
  let pending :=
    match hide_cleanup t with
    | Some timer => delete timer (timeouts t)
    | None => timeouts t
    end in
  match notification with
  | Some _ =>
      let timer := timeout_next t in
      mkHideTimers (S timer) (<[timer := 5000]> pending) (Some timer)
  | None => mkHideTimers (timeout_next t) pending None
  end.

(** The timeout [timer] fires: it leaves the pending set, its callback sets
    the notification to [null], and the effect runs for that value. *)
Definition hide_timeout_fires (timer : nat) (t : HideTimers) : HideTimers :=
  notification_effect None
    (mkHideTimers (timeout_next t) (delete timer (timeouts t)) (hide_cleanup t)).

(** The shape the timer state keeps: the pending timeouts are exactly the
    one the installed cleanup will clear, armed for 5000 ms. *)
Definition hide_invariant (t : HideTimers) : Prop :=
  timeouts t =
    match hide_cleanup t with
    | Some timer => {[ timer := 5000 ]}
    | None => ∅
    end.

(** What can happen to the timer: a render commits a notification value,
    or a delay elapses (which matters only for a timeout that is pending). *)
Inductive HideEvent :=
| Committed (notification : option Notification)
| Elapsed (timer : nat).

Definition hide_step (t : HideTimers) (e : HideEvent) : HideTimers :=
  match e with
  | Committed n => notification_effect n t
  | Elapsed timer =>
      match timeouts t !! timer with
      | Some _ => hide_timeout_fires timer t
      | None => t
      end
  end.

Definition hide_run (es : list HideEvent) (t : HideTimers) : HideTimers :=
  fold_left hide_step es t.

(** ** [Modal] and [ImageViewer]: the Escape key and the scroll lock

    Both overlays install the same effect, keyed on [isOpen] and
    [onClose]: when open it registers a [keydown] listener and hides the
    overflow of the body; its cleanup removes the listener and resets the
    overflow to the empty string. *)

Module Overlay.

Record Document := mkDocument {
  listener_next : nat;
  (** the registered [keydown] listeners, each with the [isOpen] its
      closure captured *)
  keydown : list (nat * bool);
  body_overflow : jsstring
}.

Record Mounted := mkMounted {
  doc : Document;
  (** the listener the installed cleanup removes *)
  cleanup : option nat
}.

Definition run_cleanup (handler : nat) (d : Document) : Document :=
  mkDocument (listener_next d)
             (List.filter (λ l, negb (Nat.eqb (fst l) handler)) (keydown d))
             [].

(** One run of the effect: the previous cleanup, then the body, which
    creates the closure [handleEscKey] and, when open, registers it. *)
Definition effect (isOpen : bool) (m : Mounted) : Mounted :=
  let d := match cleanup m with
           | Some h => run_cleanup h (doc m)
           | None => doc m
           end in
  let handleEscKey := listener_next d in
  let d' :=
    if isOpen
    then mkDocument (S handleEscKey) (keydown d ++ [(handleEscKey, isOpen)])
                    (lit "hidden")
    else mkDocument (S handleEscKey) (keydown d) (body_overflow d) in
  mkMounted d' (Some handleEscKey).

Definition unmount (m : Mounted) : Mounted :=
  match cleanup m with
  | Some h => mkMounted (run_cleanup h (doc m)) None
  | None => m
  end.

Definition commits (opens : list bool) (m : Mounted) : Mounted :=
  fold_left (λ m o, effect o m) opens m.

(** The number of [onClose] calls a [keydown] event with the given [key]
    causes: one for each registered listener whose test
    [event.key === 'Escape' && isOpen] passes. *)
Definition keydown_event (key : jsstring) (d : Document) : nat :=
  length (List.filter (λ l, bool_decide (key = lit "Escape") && snd l) (keydown d)).

End Overlay.

(** ** [LoadingScreen]: the local timers *)

Module LoadingScreen.

Definition loadingMessages : list jsstring :=
  [lit "Uploading your sketch...";
   lit "AI analyzing your image...";
   lit "Generating realistic features...";
   lit "Applying final enhancements...";
   lit "Preparing your result...";
   lit "Almost ready..."].

Definition totalDuration : Q := 30000.
Definition intervalTime : Q := 100.
Definition incrementPerUpdate : Q := 95 / (totalDuration / intervalTime).

(** The updater of the fallback progress timer. The source adds doubles;
    the rationals here are the exact values, so only statements that the
    rounding of an addition preserves (comparisons with the clamp, order)
    are made about it. *)
Definition progress_update (prev : Q) : Q :=
  let newProgress := (prev + incrementPerUpdate)%Q in
  if Qle_bool 95 newProgress then 95%Q else newProgress.

(** The updater of the message timer. *)
Definition message_update (prev : nat) : nat :=
  if (length loadingMessages - 1 <=? prev)%nat then 0%nat else (prev + 1)%nat.

(** The updater of the dots timer. *)
Definition dots_update (prev : jsstring) : jsstring :=
  if bool_decide (prev = lit "...") then [] else prev ++ lit ".".

(** The local state of the component. *)
Record Local := mkLocal {
  progress : Q;
  currentMessageIndex : nat;
  dots : jsstring
}.

(** The first effect, keyed on [isVisible] and [externalProgress]: hidden,
    it resets the local state; visible, it copies the external progress,
    or starts the fallback timer when there is none (the flag returned). *)
Definition visibility_effect (isVisible : bool) (externalProgress : option Q)
    (s : Local) : Local * bool :=
  if negb isVisible then (mkLocal 0%Q 0%nat [], false)
  else
    match externalProgress with
    | Some p => (mkLocal p (currentMessageIndex s) (dots s), false)
    | None => (s, true)
    end.

(** The percentage shown, [Math.round (progress)]. *)
Definition shown_percent (progress : Q) : Z :=
  math_round_div (Qnum progress) (Zpos (Qden progress)).

(** What [home.tsx] makes the screen show: it passes [isLoading] and
    [loadingProgress]. *)
Definition shown_by (s : State) (local : Local) : Z :=
  shown_percent (progress (fst (visibility_effect (isLoading s)
                                  (Some (loadingProgress s)) local))).

End LoadingScreen.

(** ** Further example inputs *)

(** A runtime whose canvas has a 2D context but hands a [null] blob to the
    callback of [toBlob]. *)
Definition null_blob_runtime : Runtime :=
  mkRuntime true (λ _ _ _, None) 1000.

(** A file that claims to be a PNG and does not decode, and a PDF. *)
Definition broken_png : File :=
  mkFile (mkBlob [0; 1; 2]%N (lit "image/png") None) (lit "broken.png") 0.

Definition pdf_file : File :=
  mkFile (mkBlob [37; 80; 68; 70]%N (lit "application/pdf") None) (lit "notes.pdf") 0.

(** ** Canvases as the HTML standard has them *)

(** [toBlob] on a canvas without pixels (a zero side) hands [null] to its
    callback. *)
Definition empty_canvas_gives_null (rt : Runtime) : Prop :=
  ∀ w h ty, w = 0 ∨ h = 0 → canvas_toBlob rt w h ty = None.

(** A runtime that has a 2D context and re-encodes every canvas that has
    pixels. *)
Definition encodes_nonempty_canvas (rt : Runtime) : Prop :=
  canvas_2d_available rt = true ∧
  ∀ w h ty, 0 < w → 0 < h → is_Some (canvas_toBlob rt w h ty).

(** A runtime with a working canvas that follows both rules. *)
Definition html_canvas_runtime : Runtime :=
  mkRuntime true
    (λ w h _, if (w =? 0) || (h =? 0) then None else Some [1; 2; 3]%N)
    1000.

(** A strip: a JPEG of 2000 by 1 pixels. *)
Definition strip_2000x1 : File :=
  mkFile (mkBlob [255; 216; 255]%N (lit "image/jpeg") (Some (2000, 1)))
         (lit "strip.jpg") 0.

(** * The image preprocessor *)

Section Preprocessor.

Lemma math_round_div_bounds a b :
  0 < b →
  2 * b * math_round_div a b <= 2 * a + b < 2 * b * math_round_div a b + 2 * b.
Proof.
  intros Hb. unfold math_round_div.
  pose proof (Z.mul_div_le (2 * a + b) (2 * b) ltac:(lia)).
  pose proof (Z.mul_succ_div_gt (2 * a + b) (2 * b) ltac:(lia)).
  lia.
Qed.

(** The arithmetic of the two guarded assignments on an oversized image:
    the larger side lands on 800 and the other side is less than one
    pixel away from the exact proportional value. *)
Lemma scaled_dimensions_oversized w h :
  0 <= w → 0 <= h → 800 < w ∨ 800 < h →
  let '(w', h') := scaled_dimensions w h in
  Z.max w' h' = 800 ∧ 0 <= w' ∧ 0 <= h' ∧
  (h <= w → w' = 800 ∧ Z.abs (h' * w - 800 * h) < w) ∧
  (w < h → h' = 800 ∧ Z.abs (w' * h - 800 * w) < h).
Proof.
  intros Hw Hh Hbig. unfold scaled_dimensions, MAX_WIDTH, MAX_HEIGHT.
  destruct (800 <? w) eqn:E1.
  - apply Z.ltb_lt in E1.
    pose proof (math_round_div_bounds (h * 800) w ltac:(lia)) as B1.
    set (h1 := math_round_div (h * 800) w) in *.
    destruct (800 <? h1) eqn:E2.
    + apply Z.ltb_lt in E2.
      pose proof (math_round_div_bounds (800 * 800) h1 ltac:(lia)) as B2.
      set (w2 := math_round_div (800 * 800) h1) in *.
      assert (w < h) by nia.
      assert (0 <= w2) by nia.
      assert (w2 <= 800) by nia.
      split; [lia|]. split; [lia|]. split; [lia|]. split; [lia|].
      intros _. split; [reflexivity|]. apply Z.abs_lt. split; nia.
    + apply Z.ltb_ge in E2.
      assert (0 <= h1) by nia.
      split; [lia|]. split; [lia|]. split; [lia|]. split.
      * intros _. split; [reflexivity|]. apply Z.abs_lt. split; nia.
      * intros Hlt. assert (h1 = 800) by nia. split; [assumption|].
        apply Z.abs_lt. split; nia.
  - apply Z.ltb_ge in E1. destruct Hbig as [?|Hbig]; [lia|].
    assert (E2 : (800 <? h) = true) by (apply Z.ltb_lt; lia). rewrite E2.
    pose proof (math_round_div_bounds (w * 800) h ltac:(lia)) as B2.
    set (w2 := math_round_div (w * 800) h) in *.
    assert (0 <= w2) by nia. assert (w2 <= 800) by nia.
    split; [lia|]. split; [lia|]. split; [lia|]. split; [lia|].
    intros _. split; [reflexivity|]. apply Z.abs_lt. split; nia.
Qed.

Lemma scaled_dimensions_within w h :
  w <= 800 → h <= 800 → scaled_dimensions w h = (w, h).
Proof.
  intros Hw Hh. unfold scaled_dimensions, MAX_WIDTH, MAX_HEIGHT.
  destruct (800 <? w) eqn:E1; [apply Z.ltb_lt in E1; lia|].
  destruct (800 <? h) eqn:E2; [apply Z.ltb_lt in E2; lia|]. reflexivity.
Qed.

(** What [processImage] leaves selected when the canvas path runs to the
    end: a file with the name and type of the input, stamped by the
    clock, whose image has the scaled dimensions. *)
Lemma processImage_reencodes rt file w h bytes app :
  file_image file = Some (w, h) →
  canvas_2d_available rt = true →
  canvas_toBlob rt (scaled_dimensions w h).1 (scaled_dimensions w h).2
                (file_type file) = Some bytes →
  selectedFile (st (exec (processImage rt file) app)) =
    Some (mkFile (mkBlob bytes (file_type file) (Some (scaled_dimensions w h)))
                 (file_name file) (clock_now rt)).
Proof.
  intros Himg Hctx Hblob. destruct app as [[sf d g il lp em r n mo] [un us tn iv lg] er].
  mrun. rewrite Himg. destruct (scaled_dimensions w h) as [w' h'] eqn:E.
  cbn [fst snd] in Hblob. mrun. rewrite Hctx, Hblob. reflexivity.
Qed.

(** Without a 2D context the original file is selected and nothing else
    of the state changes. *)
Lemma processImage_without_context rt file w h app :
  file_image file = Some (w, h) →
  canvas_2d_available rt = false →
  processImage rt file app =
    (Normal tt,
     exec (revokeObjectURL (ObjectUrl (url_next (br app))))
       (exec (createObjectURL (file_blob file))
          (exec (setSelectedFile (Some file)) app))).
Proof.
  intros Himg Hctx. destruct app as [[sf d g il lp em r n mo] [un us tn iv lg] er].
  mrun. rewrite Himg. destruct (scaled_dimensions w h) as [w' h'].
  mrun. rewrite Hctx. reflexivity.
Qed.

(** A [null] blob from [canvas.toBlob] leaves the selection and the
    notification as they were. *)
Lemma processImage_null_blob rt file w h app :
  file_image file = Some (w, h) →
  canvas_2d_available rt = true →
  canvas_toBlob rt (scaled_dimensions w h).1 (scaled_dimensions w h).2
                (file_type file) = None →
  st (exec (processImage rt file) app) = st app.
Proof.
  intros Himg Hctx Hblob. destruct app as [[sf d g il lp em r n mo] [un us tn iv lg] er].
  mrun. rewrite Himg. destruct (scaled_dimensions w h) as [w' h'] eqn:E.
  cbn [fst snd] in Hblob. mrun. rewrite Hctx, Hblob. reflexivity.
Qed.

(** The temporary URL of [processImage] is revoked on both paths. *)
Lemma processImage_releases_its_url rt file app :
  url_next (br app) ∉ live_urls (exec (processImage rt file) app).
Proof.
  destruct app as [[sf d g il lp em r n mo] [un us tn iv lg] er].
  mrun. destruct (file_image file) as [[w h]|].
  - destruct (scaled_dimensions w h) as [w' h']. mrun.
    destruct (canvas_2d_available rt);
      [destruct (canvas_toBlob rt w' h' (file_type file))|];
      mrun; rewrite dom_delete_L; set_solver.
  - mrun. rewrite dom_delete_L. set_solver.
Qed.

(** C9. For every input image whose width and height are both at most
    800 pixels, the file [processImage] selects has exactly the
    dimensions of the input, whether the canvas re-encodes it or the
    original file is used for want of a 2D context. *)
Theorem processImage_keeps_small_image rt file w h bytes app :
  file_image file = Some (w, h) →
  w <= 800 → h <= 800 →
  canvas_2d_available rt = false ∨
    canvas_toBlob rt w h (file_type file) = Some bytes →
  ∃ out,
    selectedFile (st (exec (processImage rt file) app)) = Some out ∧
    file_image out = Some (w, h).
Proof.
  intros Himg Hw Hh Hrt.
  pose proof (scaled_dimensions_within w h Hw Hh) as Hdim.
  destruct (canvas_2d_available rt) eqn:Hctx.
  - destruct Hrt as [?|Hblob]; [discriminate|].
    rewrite (processImage_reencodes rt file w h bytes app Himg Hctx)
      by (rewrite Hdim; exact Hblob).
    rewrite Hdim. eexists. split; reflexivity.
  - unfold exec at 1.
    rewrite (processImage_without_context rt file w h app Himg Hctx).
    exists file. split; [|exact Himg].
    destruct app as [[sf d g il lp em r n mo] [un us tn iv lg] er]. reflexivity.
Qed.

Lemma processImage_keeps_small_image_witness :
  ∃ out,
    selectedFile (st (exec (processImage canvas_runtime png_640x480) initial_app))
      = Some out ∧
    file_image out = Some (640, 480).
Proof.
  apply (processImage_keeps_small_image canvas_runtime png_640x480 640 480
           [1; 2; 3]%N initial_app).
  - reflexivity.
  - lia.
  - lia.
  - right; reflexivity.
Defined.

(** C6. For every input image, when the runtime has no 2D canvas context
    to re-encode with, [processImage] selects the original, unresized
    file; the handler completes normally and raises no notification, so
    the degradation is not an error outcome. *)
Theorem processImage_falls_back_to_original rt file w h app :
  file_image file = Some (w, h) →
  canvas_2d_available rt = false →
  completion (processImage rt file) app = Normal tt ∧
  selectedFile (st (exec (processImage rt file) app)) = Some file ∧
  notification (st (exec (processImage rt file) app)) = notification (st app).
Proof.
  intros Himg Hctx. unfold completion, exec.
  rewrite (processImage_without_context rt file w h app Himg Hctx).
  destruct app as [[sf d g il lp em r n mo] [un us tn iv lg] er].
  repeat split.
Qed.

Lemma processImage_falls_back_to_original_witness :
  completion (processImage no_canvas_runtime jpeg_1600x1200) initial_app = Normal tt ∧
  selectedFile (st (exec (processImage no_canvas_runtime jpeg_1600x1200) initial_app))
    = Some jpeg_1600x1200 ∧
  notification (st (exec (processImage no_canvas_runtime jpeg_1600x1200) initial_app))
    = None.
Proof.
  apply (processImage_falls_back_to_original no_canvas_runtime jpeg_1600x1200
           1600 1200 initial_app); reflexivity.
Defined.

End Preprocessor.

(** * The submission controller *)

Section Validation.

Lemma trimStart_nil_iff (s : jsstring) :
  JsString.trimStart s = [] ↔ forallb JsString.is_white_space s = true.
Proof.
  induction s as [|c s IH]; cbn; [tauto|].
  destruct (JsString.is_white_space c); cbn; [exact IH|].
  split; discriminate.
Qed.

Lemma trimStart_head (s : jsstring) c r :
  JsString.trimStart s = c :: r → JsString.is_white_space c = false.
Proof.
  induction s as [|a s IH]; cbn; [discriminate|].
  destruct (JsString.is_white_space a) eqn:E; [exact IH|].
  intros [= <- _]. exact E.
Qed.

(** [description.trim ()] is empty exactly when the description consists
    of white space only. *)
Lemma trim_nil_iff (s : jsstring) :
  JsString.trim s = [] ↔ forallb JsString.is_white_space s = true.
Proof.
  rewrite <- trimStart_nil_iff. unfold JsString.trim, JsString.trimEnd.
  split.
  - intros H. destruct (JsString.trimStart s) as [|c r] eqn:E; [reflexivity|].
    exfalso. apply (f_equal (@rev _)) in H. rewrite rev_involutive in H.
    change (rev (@nil N)) with (@nil N) in H.
    apply trimStart_nil_iff in H. rewrite forallb_forall in H.
    pose proof (trimStart_head s c r E) as Hc.
    rewrite (H c) in Hc; [discriminate|].
    rewrite <- in_rev. left; reflexivity.
  - intros ->. reflexivity.
Qed.

Lemma message_for_injective f1 f2 :
  message_for f1 = message_for f2 → f1 = f2.
Proof.
  destruct f1, f2; try reflexivity; intros H; vm_compute in H; discriminate.
Qed.

(** The run of [handleSubmit] when some input is missing: the two resets,
    then the notification of the first missing input, and the return. *)
Lemma handleSubmit_rejects app env f :
  first_missing (st app) = Some f →
  handleSubmit env app =
    (Normal tt,
     exec (setNotification (Some (mkNotification error (message_for f))))
       (exec (setNotification None) (exec (setErrorMessage []) app))).
Proof.
  destruct app as [[sf d g il lp em r n mo] [un us tn iv lg] er].
  unfold first_missing. cbn [List.find missing st selectedFile description selectedGender].
  destruct sf as [file|].
  - destruct (forallb JsString.is_white_space d) eqn:Ed.
    + intros [= <-]. apply trim_nil_iff in Ed. mrun. rewrite Ed. reflexivity.
    + destruct g as [|c g]; [|discriminate].
      intros [= <-]. mrun.
      destruct (JsString.trim d) eqn:Et; [|reflexivity].
      apply trim_nil_iff in Et. congruence.
  - intros [= <-]. reflexivity.
Qed.

Lemma passes_validation_first_missing s file :
  passes_validation s file → first_missing s = None.
Proof.
  intros (Hf & Hd & Hg). unfold first_missing. cbn [List.find missing].
  rewrite Hf. destruct (forallb JsString.is_white_space (description s)) eqn:Ed.
  - apply trim_nil_iff in Ed. contradiction.
  - destruct (selectedGender s); [contradiction|reflexivity].
Qed.

Lemma first_missing_complete s :
  selectedFile s = None ∨ description s = [] ∨ selectedGender s = [] →
  ∃ f, first_missing s = Some f.
Proof.
  intros H. unfold first_missing. cbn [List.find missing].
  destruct (selectedFile s); [|eauto].
  destruct (forallb JsString.is_white_space (description s)) eqn:Ed; [eauto|].
  destruct (selectedGender s); [eauto|].
  destruct H as [H|[H|H]]; try discriminate.
  rewrite H in Ed. discriminate.
Qed.

(** C2. For every submit request in which the image is absent, or the
    description is empty, or no gender is selected, [handleSubmit] adds
    no event to the browser log, hence issues no network call, and
    leaves the error notification of an input that is indeed missing;
    the three messages are pairwise distinct. *)
Theorem handleSubmit_missing_input app env :
  selectedFile (st app) = None ∨
    description (st app) = [] ∨
    selectedGender (st app) = [] →
  new_events (handleSubmit env) app = [] ∧
  fetches (log (br (exec (handleSubmit env) app))) = fetches (log (br app)) ∧
  (∃ f, missing (st app) f = true ∧
        notification (st (exec (handleSubmit env) app))
          = Some (mkNotification error (message_for f))) ∧
  (∀ f1 f2, message_for f1 = message_for f2 → f1 = f2).
Proof.
  intros H. destruct (first_missing_complete _ H) as [f Hf].
  unfold new_events, exec at 1 2 3. rewrite (handleSubmit_rejects app env f Hf).
  destruct app as [[sf d g il lp em r n mo] [un us tn iv lg] er].
  cbn. split; [apply drop_all|]. split; [reflexivity|].
  split; [|exact message_for_injective].
  exists f. split; [|reflexivity].
  apply find_some in Hf. tauto.
Qed.

Lemma handleSubmit_missing_input_witness :
  new_events (handleSubmit env_success) initial_app = [] ∧
  fetches (log (br (exec (handleSubmit env_success) initial_app))) = [] ∧
  (∃ f, missing initial_state f = true ∧
        notification (st (exec (handleSubmit env_success) initial_app))
          = Some (mkNotification error (message_for f))) ∧
  (∀ f1 f2, message_for f1 = message_for f2 → f1 = f2).
Proof.
  apply (handleSubmit_missing_input initial_app env_success).
  left. reflexivity.
Defined.

(** C10. [handleSubmit] checks the image, then the description, then the
    gender, and returns at the first input that is missing, a description
    of white space only counting as missing: it resets the error message
    and the notification, sets the notification of that first missing
    input, and does nothing else. *)
Theorem handleSubmit_validation_order app env f :
  first_missing (st app) = Some f →
  completion (handleSubmit env) app = Normal tt ∧
  exec (handleSubmit env) app =
    exec (setNotification (Some (mkNotification error (message_for f))))
      (exec (setNotification None) (exec (setErrorMessage []) app)) ∧
  notification (st (exec (handleSubmit env) app))
    = Some (mkNotification error (message_for f)).
Proof.
  intros Hf. unfold completion, exec at 1 5.
  rewrite (handleSubmit_rejects app env f Hf).
  destruct app as [[sf d g il lp em r n mo] [un us tn iv lg] er].
  repeat split.
Qed.

(** With everything missing the image is reported; with a sketch, a
    description of blanks and no gender, the description is. *)
Lemma handleSubmit_validation_order_witness :
  notification
    (st (exec (handleSubmit env_success) (mkApp blank_state initial_browser None)))
    = Some (mkNotification error msg_no_sketch) ∧
  notification
    (st (exec (handleSubmit env_success)
           (mkApp blank_description_state initial_browser None)))
    = Some (mkNotification error msg_no_description).
Proof.
  split.
  - apply (handleSubmit_validation_order
             (mkApp blank_state initial_browser None) env_success FImage).
    reflexivity.
  - apply (handleSubmit_validation_order
             (mkApp blank_description_state initial_browser None) env_success
             FDescription).
    reflexivity.
Defined.

End Validation.

Section Progress.

Lemma progress_tick_monotone r p :
  (0 <= r)%Q → (p <= progress_tick r p)%Q.
Proof.
  intros Hr. unfold progress_tick. destruct (Qlt_le_dec p 85); lra.
Qed.

(** Once the value is at 85 or above, a firing leaves it alone. *)
Lemma progress_tick_frozen r p :
  (85 <= p)%Q → progress_tick r p = p.
Proof.
  intros Hp. unfold progress_tick. destruct (Qlt_le_dec p 85); [lra|reflexivity].
Qed.

Lemma progress_tick_below_88 r p :
  random_sample r → (p < 88)%Q → (progress_tick r p < 88)%Q.
Proof.
  intros [Hr0 Hr1] Hp. unfold progress_tick. destruct (Qlt_le_dec p 85); lra.
Qed.

Lemma run_ticks_below_88 rs :
  ∀ p, Forall random_sample rs → (p < 88)%Q → (run_ticks rs p < 88)%Q.
Proof.
  induction rs as [|r rs IH]; intros p Hrs Hp; [exact Hp|].
  inversion Hrs; subst.
  change (run_ticks (r :: rs) p) with (run_ticks rs (progress_tick r p)).
  apply IH; [assumption|].
  apply progress_tick_below_88; assumption.
Qed.

Lemma run_ticks_monotone rs :
  ∀ p, Forall random_sample rs → (p <= run_ticks rs p)%Q.
Proof.
  induction rs as [|r rs IH]; intros p Hrs; [cbn; lra|].
  inversion Hrs as [|? ? [Hr0 _] Hrest]; subst.
  change (run_ticks (r :: rs) p) with (run_ticks rs (progress_tick r p)).
  pose proof (progress_tick_monotone r p Hr0).
  pose proof (IH (progress_tick r p) Hrest). lra.
Qed.

Lemma run_ticks_app rs1 rs2 p :
  run_ticks (rs1 ++ rs2) p = run_ticks rs2 (run_ticks rs1 p).
Proof. apply fold_left_app. Qed.

(** The timer firings of an [await] only move the progress value, and
    only while the timer is live. *)
Lemma elapse_live id rs :
  ∀ s b er, id ∈ intervals b →
    elapse id rs (mkApp s b er) =
      (Normal tt,
       mkApp (mkState (selectedFile s) (description s) (selectedGender s)
                (isLoading s) (run_ticks rs (loadingProgress s)) (errorMessage s)
                (result s) (notification s) (isModalOpen s)) b er).
Proof.
  induction rs as [|r rs IH]; intros s b er Hin.
  - destruct s; reflexivity.
  - cbn [elapse]. unfold mbind, M_bind at 1. unfold interval_fires. cbn [br].
    rewrite bool_decide_eq_true_2 by exact Hin.
    unfold setLoadingProgress, modify_state. cbn [st br effect_result].
    rewrite IH by exact Hin. reflexivity.
Qed.

Lemma elapse_cleared id rs app :
  id ∉ intervals (br app) → elapse id rs app = (Normal tt, app).
Proof.
  intros Hout. induction rs as [|r rs IH]; [reflexivity|].
  cbn [elapse]. unfold mbind, M_bind at 1. unfold interval_fires.
  rewrite bool_decide_eq_false_2 by exact Hout. exact IH.
Qed.

End Progress.

Section Submission.

Ltac start_valid app Hv :=
  destruct app as [[sf d g il lp em r n mo] [un us tn iv lg] er];
  destruct Hv as (Hsel & Hdesc & Hgen);
  cbn [st selectedFile description selectedGender] in Hsel, Hdesc, Hgen;
  subst sf; mrun;
  destruct (JsString.trim d) as [|c0 d0] eqn:Etrim; [done|]; clear Hdesc;
  destruct g as [|g0 gs]; [done|]; clear Hgen;
  mrun; rewrite elapse_live by (cbn; set_solver); mrun.

Ltac await_body := rewrite elapse_live by (cbn; set_solver); mrun.

(** The local [errorMessage] of the non-ok branch, case by case. *)
Lemma reject_response_throws env timer resp s b er :
  timer ∈ intervals b →
  ∃ p,
    reject_response env timer resp (mkApp s b er) =
      (Throw (ErrorObject (logged_detail resp)),
       mkApp (mkState (selectedFile s) (description s) (selectedGender s)
                (isLoading s) p (errorMessage s) (result s) (notification s)
                (isModalOpen s)) b er) ∧
    p = run_ticks (ticks_body env) (loadingProgress s).
Proof.
  intros Hin. eexists. split; [|reflexivity].
  unfold reject_response, logged_detail, usable_member, status_line.
  mrun. rewrite elapse_live by exact Hin.
  destruct (body_json resp) as [j|]; [|reflexivity].
  destruct j as [|bv|q|sv|l|fields]; mrun; cbn [json_member value_truthy]; mrun;
    try reflexivity.
  destruct (obj_get (lit "detail") fields) as [dv|]; cbn [value_truthy].
  - destruct (json_truthy dv); mrun; [reflexivity|].
    destruct (obj_get (lit "message") fields) as [mv|]; cbn [value_truthy];
      [destruct (json_truthy mv)|]; reflexivity.
  - destruct (obj_get (lit "message") fields) as [mv|]; cbn [value_truthy];
      [destruct (json_truthy mv)|]; reflexivity.
Qed.

(** The browser events of a submission that passes validation: the timer
    is started, the request is sent, one event tells the outcome (the
    object URL of the result, or the console entry of the failure), the
    timer is cleared and the delayed lowering of the busy flag is
    scheduled. *)
Lemma handleSubmit_valid_trace app env file :
  passes_validation (st app) file →
  ∃ mid,
    log (br (exec (handleSubmit env) app)) =
      log (br app) ++
        [EvSetInterval (timer_next (br app)) 200;
         EvFetch (submission_request file (description (st app))
                    (selectedGender (st app)));
         mid;
         EvClearInterval (timer_next (br app));
         EvSetTimeout LowerBusyFlag 500] ∧
    (mid = EvCreateObjectURL (url_next (br app)) ∨
     ∃ t, mid = EvConsoleError error_label t) ∧
    intervals (br (exec (handleSubmit env) app)) =
      ({[ timer_next (br app) ]} ∪ intervals (br app)) ∖ {[ timer_next (br app) ]}.
Proof.
  intros Hv. start_valid app Hv.
  destruct (fetch_outcome env) as [|resp]; mrun.
  - eexists. rewrite <- !app_assoc. cbn [app]. split; [reflexivity|]. split; [|reflexivity].
    right. eexists. reflexivity.
  - destruct (response_ok resp); mrun.
    + await_body. destruct (body_blob resp) as [blob|]; mrun.
      * eexists. rewrite <- !app_assoc. cbn [app]. split; [reflexivity|].
        split; [|reflexivity]. left. reflexivity.
      * eexists. rewrite <- !app_assoc. cbn [app]. split; [reflexivity|].
        split; [|reflexivity]. right. eexists. reflexivity.
    + edestruct reject_response_throws as (p & -> & _); [cbn; set_solver|].
      mrun. eexists. rewrite <- !app_assoc. cbn [app]. split; [reflexivity|].
      split; [|reflexivity]. right. eexists. reflexivity.
Qed.

Lemma new_events_of_log {A} (m : M A) app evs :
  log (br (exec m app)) = log (br app) ++ evs → new_events m app = evs.
Proof. intros H. unfold new_events. rewrite H. apply drop_app_length. Qed.

(** C3. For every submission that passes validation exactly one request
    is issued: a POST to the endpoint whose multipart body has the
    selected image under [file] and the text [<description> (<gender>)]
    under [prompt]. *)
Theorem handleSubmit_sends_one_request app env file :
  passes_validation (st app) file →
  fetches (new_events (handleSubmit env) app) =
    [submission_request file (description (st app)) (selectedGender (st app))].
Proof.
  intros Hv.
  destruct (handleSubmit_valid_trace app env file Hv) as (mid & Hlog & Hmid & _).
  rewrite (new_events_of_log _ _ _ Hlog).
  destruct Hmid as [->|[t ->]]; reflexivity.
Qed.

(** The example of the specification: the description [a smiling man]
    with the gender [male] sends the prompt [a smiling man (male)]. *)
Lemma handleSubmit_sends_one_request_witness :
  fetches (new_events (handleSubmit env_success) filled_app) =
    [mkRequest API_URL (lit "POST")
       [(lit "file", FormFile png_640x480);
        (lit "prompt", FormString (lit "a smiling man (male)"))]].
Proof.
  apply (handleSubmit_sends_one_request filled_app env_success png_640x480).
  split; [reflexivity|]. split; [vm_compute; discriminate|discriminate].
Defined.

(** C8. On every outcome of a submission that passes validation (a
    success response, a failure response, a rejected fetch or body read)
    [handleSubmit] starts one interval timer and clears that timer exactly
    once; afterwards the timer is not live and the live timers are among
    those that were live before. *)
Theorem handleSubmit_clears_timer_once app env file :
  passes_validation (st app) file →
  let id := timer_next (br app) in
  let evs := new_events (handleSubmit env) app in
  List.filter is_set_interval evs = [EvSetInterval id 200] ∧
  count (is_clear_of id) evs = 1%nat ∧
  count is_clear evs = 1%nat ∧
  (id ∉ live_intervals (exec (handleSubmit env) app)) ∧
  (live_intervals (exec (handleSubmit env) app) ⊆ live_intervals app).
Proof.
  intros Hv id evs. subst id evs.
  destruct (handleSubmit_valid_trace app env file Hv) as (mid & Hlog & Hmid & Hint).
  rewrite (new_events_of_log _ _ _ Hlog). unfold live_intervals. rewrite Hint.
  split; [destruct Hmid as [->|[t ->]]; reflexivity|].
  split; [destruct Hmid as [->|[t ->]]; cbn; rewrite Nat.eqb_refl; reflexivity|].
  split; [destruct Hmid as [->|[t ->]]; reflexivity|].
  split; set_solver.
Qed.

Lemma handleSubmit_clears_timer_once_witness :
  count (is_clear_of 0) (new_events (handleSubmit env_server_error) filled_app) = 1%nat ∧
  live_intervals (exec (handleSubmit env_server_error) filled_app) = ∅.
Proof.
  destruct (handleSubmit_clears_timer_once filled_app env_server_error png_640x480)
    as (_ & Hclear & _ & _ & Hsub).
  - split; [reflexivity|]. split; [vm_compute; discriminate|discriminate].
  - split; [exact Hclear|]. apply leibniz_equiv. apply equiv_empty. exact Hsub.
Defined.

(** C7, as amended. For every non-2xx response to a submission that
    passes validation the controller logs one console entry. Its detail
    is the [detail] member of the JSON body when that is truthy, else the
    [message] member when that is truthy, else the preset text
    [Failed to process the sketch]; when the body does not parse as JSON
    (or parses to [null]) it is the status line. The detail goes to the
    console only: the component's error message stays empty, the result
    is untouched, and the notification is the fixed generic text
    whatever the response says. *)
Theorem handleSubmit_http_failure_logs_detail app env file resp :
  passes_validation (st app) file →
  fetch_outcome env = Responded resp →
  response_ok resp = false →
  new_events (handleSubmit env) app =
    [EvSetInterval (timer_next (br app)) 200;
     EvFetch (submission_request file (description (st app)) (selectedGender (st app)));
     EvConsoleError error_label (ErrorObject (logged_detail resp));
     EvClearInterval (timer_next (br app));
     EvSetTimeout LowerBusyFlag 500] ∧
  notification (st (exec (handleSubmit env) app))
    = Some (mkNotification error msg_generic_failure) ∧
  errorMessage (st (exec (handleSubmit env) app)) = [] ∧
  result (st (exec (handleSubmit env) app)) = result (st app).
Proof.
  intros Hv Hout Hok. start_valid app Hv. rewrite Hout. mrun. rewrite Hok. mrun.
  edestruct reject_response_throws as (p & -> & _); [cbn; set_solver|].
  mrun. rewrite <- !app_assoc. cbn [app].
  split; [apply drop_app_length|]. repeat split.
Qed.

Lemma handleSubmit_http_failure_logs_detail_witness :
  console_entries (new_events (handleSubmit env_bad_gateway) filled_app)
    = [ErrorObject (JStr (lit "Server error: 502 Bad Gateway"))] ∧
  notification (st (exec (handleSubmit env_bad_gateway) filled_app))
    = Some (mkNotification error msg_generic_failure).
Proof.
  destruct (handleSubmit_http_failure_logs_detail filled_app env_bad_gateway
              png_640x480 error_response_html) as (Hev & Hnote & _).
  - split; [reflexivity|]. split; [vm_compute; discriminate|discriminate].
  - reflexivity.
  - reflexivity.
  - split; [rewrite Hev; reflexivity|exact Hnote].
Defined.

(** The wording of the interface description, which names the status
    line as the only fallback, fails on an error body that is valid JSON
    without a usable member: the preset text is logged, not the status
    line. *)
Lemma described_detail_refuted :
  console_entries (new_events (handleSubmit env_server_error) filled_app)
    = [ErrorObject (JStr (lit "Failed to process the sketch"))] ∧
  described_detail error_response_empty_object
    = JStr (lit "Server error: 500 Internal Server Error") ∧
  console_entries (new_events (handleSubmit env_server_error) filled_app)
    ≠ [ErrorObject (described_detail error_response_empty_object)].
Proof.
  split; [reflexivity|]. split; [reflexivity|].
  intros H. vm_compute in H. discriminate H.
Qed.

End Submission.

Section ProgressOfSubmission.

(** The progress value a submission ends with: 100 after a success
    response whose body was read, and otherwise whatever the timer
    firings made of it. *)
Lemma handleSubmit_progress app env file :
  passes_validation (st app) file →
  loadingProgress (st (exec (handleSubmit env) app)) =
    match fetch_outcome env with
    | NetworkFailure => run_ticks (ticks_pending env) 0%Q
    | Responded resp =>
        if response_ok resp && bool_decide (is_Some (body_blob resp))
        then 100%Q
        else run_ticks (ticks_body env) (run_ticks (ticks_pending env) 0%Q)
    end.
Proof.
  intros Hv.
  destruct app as [[sf d g il lp em r n mo] [un us tn iv lg] er].
  destruct Hv as (Hsel & Hdesc & Hgen).
  cbn [st selectedFile description selectedGender] in Hsel, Hdesc, Hgen.
  subst sf. mrun.
  destruct (JsString.trim d) as [|c0 d0] eqn:Etrim; [done|].
  destruct g as [|g0 gs]; [done|].
  mrun. rewrite elapse_live by (cbn; set_solver). mrun.
  destruct (fetch_outcome env) as [|resp]; mrun; [reflexivity|].
  destruct (response_ok resp); mrun.
  - rewrite elapse_live by (cbn; set_solver). mrun.
    destruct (body_blob resp) as [blob|]; reflexivity.
  - edestruct reject_response_throws as (p & -> & ->); [cbn; set_solver|].
    reflexivity.
Qed.

(** The timer alone never completes the bar: without a success response
    the value stays below 88, hence below 100. *)
Lemma handleSubmit_progress_incomplete app env file :
  passes_validation (st app) file →
  Forall random_sample (ticks_pending env) →
  Forall random_sample (ticks_body env) →
  (∀ resp blob, fetch_outcome env = Responded resp →
                response_ok resp = true → body_blob resp ≠ Some blob) →
  (loadingProgress (st (exec (handleSubmit env) app)) < 88)%Q.
Proof.
  intros Hv Hp Hb Hfail. rewrite (handleSubmit_progress app env file Hv).
  assert (H0 : (run_ticks (ticks_pending env) 0 < 88)%Q)
    by (apply run_ticks_below_88; [assumption|lra]).
  destruct (fetch_outcome env) as [|resp]; [exact H0|].
  destruct (response_ok resp) eqn:Hok; cbn [andb];
    [|apply run_ticks_below_88; assumption].
  destruct (body_blob resp) as [blob|] eqn:Hblob.
  - exfalso. exact (Hfail resp blob eq_refl Hok Hblob).
  - rewrite bool_decide_eq_false_2 by (intros [? ?]; discriminate).
    apply run_ticks_below_88; assumption.
Qed.

(** C4, at a failing input. The server stays silent while the timer fires
    57 times with [Math.random () = 0.5], and the connection then fails:
    the progress value stands at 85.5, above the 85 the updater is
    documented to stop at. The firing from 84 adds 1.5 without clamping. *)
Theorem handleSubmit_progress_overshoots_85 :
  (loadingProgress (st (exec (handleSubmit env_slow_failure) filled_app))
     == 171 # 2)%Q ∧
  ¬ (loadingProgress (st (exec (handleSubmit env_slow_failure) filled_app))
       <= 85)%Q ∧
  (progress_tick (1 # 2) 84 == 171 # 2)%Q.
Proof.
  split; [vm_compute; reflexivity|].
  split; [|vm_compute; reflexivity].
  intros H. vm_compute in H. apply H. reflexivity.
Qed.

End ProgressOfSubmission.

(** * Object URLs *)

Section ObjectUrls.

(** The cleanup of the [result] effect releases the handle of the result
    it closed over. *)
Lemma result_cleanup_revokes id m app :
  id ∉ live_urls (exec (result_cleanup (Some (mkResult (Some (ObjectUrl id)) m))) app).
Proof.
  destruct app as [s [un us tn iv lg] er]. mrun. cbn [url_startsWith_blob].
  rewrite dom_delete_L. set_solver.
Qed.

(** Both "Create New Image" buttons release the handle of the result
    before they drop it. *)
Lemma onClick_createNew_releases_result id m app :
  result (st app) = Some (mkResult (Some (ObjectUrl id)) m) →
  (id ∉ live_urls (exec onClick_createNew_panel app)) ∧
  (id ∉ live_urls (exec onClick_createNew_modal app)).
Proof.
  destruct app as [[sf d g il lp em r n mo] [un us tn iv lg] er].
  cbn [st result]. intros ->. mrun. cbn [url_startsWith_blob].
  rewrite dom_delete_L. set_solver.
Qed.

(** Every evaluation of the component body with a sketch selected
    registers a fresh object URL for it. *)
Lemma render_mints_sketch_url f app :
  selectedFile (st app) = Some f →
  url_store (br (exec render app)) !! url_next (br app) = Some (file_blob f) ∧
  (url_next (br app) < url_next (br (exec render app)))%nat.
Proof.
  destruct app as [[sf d g il lp em r n mo] [un us tn iv lg] er].
  cbn [st selectedFile br url_next]. intros ->. mrun.
  destruct r as [res|]; mrun.
  - rewrite lookup_insert_ne by lia. rewrite lookup_insert_eq. split; [reflexivity|lia].
  - rewrite lookup_insert_eq. split; [reflexivity|lia].
Qed.

(** Over a whole session with a result, every handle minted for the
    result is released: only the handles minted by the render body for
    the sketch remain. *)
Lemma result_session_releases_result :
  result (st (exec result_session filled_app)) = None ∧
  List.filter (λ e, match e with EvRevokeObjectURL _ => true | _ => false end)
    (log (br (exec result_session filled_app)))
    = [EvRevokeObjectURL (ObjectUrl 3); EvRevokeObjectURL (ObjectUrl 3)].
Proof. split; vm_compute; reflexivity. Qed.

(** C5, at a failing input. After the session in which a sketch is
    picked, shown over two renders and removed, and the component is
    unmounted, no state refers to the sketch any more, yet the two object
    URLs the render body minted for it are still registered: the only
    handle ever released is the temporary one of [processImage]. *)
Theorem sketch_session_leaks_object_urls :
  selectedFile (st (exec sketch_session initial_app)) = None ∧
  live_urls (exec sketch_session initial_app) = {[ 1%nat; 2%nat ]} ∧
  url_store (br (exec sketch_session initial_app)) !! 1%nat
    = Some (mkBlob [1; 2; 3]%N (lit "image/png") (Some (640, 480))) ∧
  url_store (br (exec sketch_session initial_app)) !! 2%nat
    = Some (mkBlob [1; 2; 3]%N (lit "image/png") (Some (640, 480))) ∧
  log (br (exec sketch_session initial_app)) =
    [EvCreateObjectURL 0; EvRevokeObjectURL (ObjectUrl 0);
     EvCreateObjectURL 1; EvCreateObjectURL 2].
Proof. repeat split; vm_compute; reflexivity. Qed.

End ObjectUrls.

(** * Further properties of the preprocessor *)

Section PreprocessorEdges.

(** X1. The computed canvas size never exceeds the decoded size on either
    side, and never exceeds 800 on either side: the preprocessor only
    shrinks. *)
Theorem scaled_dimensions_only_shrinks w h :
  0 <= w → 0 <= h →
  0 <= (scaled_dimensions w h).1 <= Z.min w 800 ∧
  0 <= (scaled_dimensions w h).2 <= Z.min h 800.
Proof.
  intros Hw Hh.
  destruct (Z_le_gt_dec w 800) as [Hw8|Hw8], (Z_le_gt_dec h 800) as [Hh8|Hh8].
  - rewrite scaled_dimensions_within by assumption. cbn. lia.
  - unfold scaled_dimensions, MAX_WIDTH, MAX_HEIGHT.
    assert (E1 : (800 <? w) = false) by (apply Z.ltb_ge; lia).
    assert (E2 : (800 <? h) = true) by (apply Z.ltb_lt; lia).
    rewrite E1, E2. cbn [fst snd].
    pose proof (math_round_div_bounds (w * 800) h ltac:(lia)).
    split; [split; nia|lia].
  - unfold scaled_dimensions, MAX_WIDTH, MAX_HEIGHT.
    assert (E1 : (800 <? w) = true) by (apply Z.ltb_lt; lia). rewrite E1.
    pose proof (math_round_div_bounds (h * 800) w ltac:(lia)).
    assert (E2 : (800 <? math_round_div (h * 800) w) = false)
      by (apply Z.ltb_ge; nia).
    rewrite E2. cbn [fst snd]. split; [lia|split; nia].
  - pose proof (scaled_dimensions_oversized w h Hw Hh ltac:(lia)) as H.
    destruct (scaled_dimensions w h) as [w' h']. cbn [fst snd].
    destruct H as (Hmax & Hw' & Hh' & _). lia.
Qed.

Lemma scaled_dimensions_only_shrinks_witness :
  0 <= (scaled_dimensions 1600 1639).1 <= 800 ∧
  0 <= (scaled_dimensions 1600 1639).2 <= 800.
Proof.
  apply (scaled_dimensions_only_shrinks 1600 1639); lia.
Defined.

(** X2. Preprocessing is idempotent on sizes: the size computed for an
    image that already has a computed size is that size again. *)
Theorem scaled_dimensions_idempotent w h :
  0 <= w → 0 <= h →
  scaled_dimensions (scaled_dimensions w h).1 (scaled_dimensions w h).2
    = scaled_dimensions w h.
Proof.
  intros Hw Hh.
  destruct (Z_le_gt_dec w 800) as [Hw8|Hw8], (Z_le_gt_dec h 800) as [Hh8|Hh8].
  - rewrite (scaled_dimensions_within w h) by assumption. cbn [fst snd].
    apply scaled_dimensions_within; assumption.
  - pose proof (scaled_dimensions_oversized w h Hw Hh ltac:(lia)) as H.
    destruct (scaled_dimensions w h) as [w' h']. cbn [fst snd].
    apply scaled_dimensions_within; lia.
  - pose proof (scaled_dimensions_oversized w h Hw Hh ltac:(lia)) as H.
    destruct (scaled_dimensions w h) as [w' h']. cbn [fst snd].
    apply scaled_dimensions_within; lia.
  - pose proof (scaled_dimensions_oversized w h Hw Hh ltac:(lia)) as H.
    destruct (scaled_dimensions w h) as [w' h']. cbn [fst snd].
    apply scaled_dimensions_within; lia.
Qed.

Lemma scaled_dimensions_idempotent_witness :
  scaled_dimensions 780 800 = scaled_dimensions 1600 1639.
Proof.
  apply (scaled_dimensions_idempotent 1600 1639); lia.
Defined.

(** X3. A strip loses a side: for an image wider than 800 and at least as
    wide as tall, the computed height is 0 exactly when the width is more
    than 1600 times the height; for an image at most 800 wide and taller
    than 800, the computed width is 0 exactly when the height is more than
    1600 times the width. *)
Theorem scaled_dimensions_collapses_strips w h :
  (800 < w → 0 <= h <= w →
   ((scaled_dimensions w h).2 = 0 ↔ 1600 * h < w)) ∧
  (0 <= w <= 800 → 800 < h →
   ((scaled_dimensions w h).1 = 0 ↔ 1600 * w < h)).
Proof.
  split.
  - intros Hw Hh. unfold scaled_dimensions, MAX_WIDTH, MAX_HEIGHT.
    assert (E1 : (800 <? w) = true) by (apply Z.ltb_lt; lia). rewrite E1.
    pose proof (math_round_div_bounds (h * 800) w ltac:(lia)).
    assert (E2 : (800 <? math_round_div (h * 800) w) = false)
      by (apply Z.ltb_ge; nia).
    rewrite E2. cbn [snd]. split; intros; nia.
  - intros Hw Hh. unfold scaled_dimensions, MAX_WIDTH, MAX_HEIGHT.
    assert (E1 : (800 <? w) = false) by (apply Z.ltb_ge; lia).
    assert (E2 : (800 <? h) = true) by (apply Z.ltb_lt; lia).
    rewrite E1, E2. cbn [fst].
    pose proof (math_round_div_bounds (w * 800) h ltac:(lia)).
    split; intros; nia.
Qed.

Lemma scaled_dimensions_collapses_strips_witness :
  (scaled_dimensions 2000 1).2 = 0 ∧ (scaled_dimensions 1 2000).1 = 0.
Proof.
  destruct (scaled_dimensions_collapses_strips 2000 1) as [Hwide _].
  destruct (scaled_dimensions_collapses_strips 1 2000) as [_ Htall].
  split.
  - apply Hwide; lia.
  - apply Htall; lia.
Defined.

End PreprocessorEdges.

(** * Further properties of file selection *)

Section FileSelection.

(** X4. When the selected bytes do not decode as an image, [processImage]
    completes normally, leaves the selection and every other state
    variable alone except the notification, which becomes the image-load
    error, and its only browser effects are minting and revoking its
    temporary object URL. *)
Theorem processImage_decode_failure rt file app :
  file_image file = None →
  completion (processImage rt file) app = Normal tt ∧
  st (exec (processImage rt file) app) =
    st (exec (setNotification (Some (mkNotification error msg_load_error))) app) ∧
  new_events (processImage rt file) app =
    [EvCreateObjectURL (url_next (br app));
     EvRevokeObjectURL (ObjectUrl (url_next (br app)))].
Proof.
  intros Himg. destruct app as [[sf d g il lp em r n mo] [un us tn iv lg] er].
  mrun. rewrite Himg. mrun. rewrite <- app_assoc. cbn [app].
  rewrite drop_app_length. repeat split.
Qed.

Lemma processImage_decode_failure_witness :
  selectedFile (st (exec (processImage canvas_runtime broken_png) filled_app))
    = Some png_640x480 ∧
  notification (st (exec (processImage canvas_runtime broken_png) filled_app))
    = Some (mkNotification error msg_load_error).
Proof.
  destruct (processImage_decode_failure canvas_runtime broken_png filled_app)
    as (_ & Hst & _).
  - reflexivity.
  - rewrite Hst. split; reflexivity.
Defined.

(** X5. Whatever the file and the runtime, [processImage] leaves the
    registry of object URLs as it found it, provided the handle the browser
    mints next is not registered yet: its temporary URL is revoked on the
    load path, on the error path, with or without a canvas. *)
Theorem processImage_restores_url_store rt file app :
  url_store (br app) !! url_next (br app) = None →
  url_store (br (exec (processImage rt file) app)) = url_store (br app).
Proof.
  intros Hfresh. destruct app as [[sf d g il lp em r n mo] [un us tn iv lg] er].
  cbn [br url_store url_next] in Hfresh.
  assert (Hdel : delete un (<[un := file_blob file]> us) = us)
    by (rewrite delete_insert_eq; apply delete_id; exact Hfresh).
  mrun. destruct (file_image file) as [[w h]|].
  - destruct (scaled_dimensions w h) as [w' h']. mrun.
    destruct (canvas_2d_available rt);
      [destruct (canvas_toBlob rt w' h' (file_type file))|]; exact Hdel.
  - exact Hdel.
Qed.

Lemma processImage_restores_url_store_witness :
  url_store (br (exec (processImage canvas_runtime jpeg_1600x1200) initial_app)) = ∅.
Proof.
  apply (processImage_restores_url_store canvas_runtime jpeg_1600x1200 initial_app).
  reflexivity.
Defined.

(** X6. When the canvas has a 2D context but [toBlob] hands [null] to its
    callback, [processImage] is silent: it completes normally, the whole
    state is what it was (no selection, no notification), and the only
    browser effects are those of its temporary object URL. *)
Theorem processImage_null_blob_is_silent rt file w h app :
  file_image file = Some (w, h) →
  canvas_2d_available rt = true →
  canvas_toBlob rt (scaled_dimensions w h).1 (scaled_dimensions w h).2
                (file_type file) = None →
  completion (processImage rt file) app = Normal tt ∧
  st (exec (processImage rt file) app) = st app ∧
  new_events (processImage rt file) app =
    [EvCreateObjectURL (url_next (br app));
     EvRevokeObjectURL (ObjectUrl (url_next (br app)))].
Proof.
  intros Himg Hctx Hblob. destruct app as [[sf d g il lp em r n mo] [un us tn iv lg] er].
  mrun. rewrite Himg. destruct (scaled_dimensions w h) as [w' h'] eqn:E.
  cbn [fst snd] in Hblob. mrun. rewrite Hctx, Hblob.
  rewrite <- app_assoc. cbn [app]. rewrite drop_app_length. repeat split.
Qed.

Lemma processImage_null_blob_is_silent_witness :
  st (exec (processImage null_blob_runtime jpeg_1600x1200) initial_app) = initial_state.
Proof.
  destruct (processImage_null_blob_is_silent null_blob_runtime jpeg_1600x1200
              1600 1200 initial_app) as (_ & Hst & _).
  - reflexivity.
  - reflexivity.
  - reflexivity.
  - exact Hst.
Defined.

(** X7. The preprocessor runs exactly for the four MIME types
    [image/jpg], [image/jpeg], [image/png] and [image/gif], matched in
    full and by case: a selection of any other type causes no browser
    event. Such a file, selected or dropped, leaves the state as it was
    but for the notification, which names the gesture; a drop also ends
    the drag highlight. *)
Theorem preprocessor_runs_for_four_types rt file rest v app :
  (new_events (handleFileSelect rt (file :: rest)) app ≠ [] ↔
   file_type file ∈
     [lit "image/jpg"; lit "image/jpeg"; lit "image/png"; lit "image/gif"]) ∧
  (file_type file ∉
     [lit "image/jpg"; lit "image/jpeg"; lit "image/png"; lit "image/gif"] →
   handleFileSelect rt (file :: rest) app =
     setNotification (Some (mkNotification error msg_invalid_select)) app ∧
   (handleDrop rt (file :: rest) v).2 app =
     setNotification (Some (mkNotification error msg_invalid_drop)) app ∧
   selectedFile (st (exec (handleFileSelect rt (file :: rest)) app))
     = selectedFile (st app)) ∧
  dragOver (handleDrop rt (file :: rest) v).1 = false.
Proof.
  unfold handleFileSelect, handleDrop, accepted_type. cbn [fst snd].
  split; [|split; [|reflexivity]].
  - destruct (bool_decide _) eqn:E.
    + apply bool_decide_eq_true_1 in E. split; [intros _; exact E|]. intros _.
      destruct app as [[sf d g il lp em r n mo] [un us tn iv lg] er].
      mrun. destruct (file_image file) as [[w h]|];
        [destruct (scaled_dimensions w h) as [w' h']; mrun;
         destruct (canvas_2d_available rt);
           [destruct (canvas_toBlob rt w' h' (file_type file))|]|];
        mrun; rewrite <- app_assoc, drop_app_length; discriminate.
    + apply bool_decide_eq_false_1 in E. split; [|contradiction].
      intros Hev. exfalso. apply Hev.
      destruct app as [[sf d g il lp em r n mo] [un us tn iv lg] er].
      mrun. apply drop_all.
  - intros Hty. rewrite bool_decide_eq_false_2 by exact Hty.
    destruct app as [[sf d g il lp em r n mo] w er]. repeat split.
Qed.

Lemma preprocessor_runs_for_four_types_witness :
  notification (st (exec (handleFileSelect canvas_runtime [pdf_file]) filled_app))
    = Some (mkNotification error msg_invalid_select) ∧
  selectedFile (st (exec (handleFileSelect canvas_runtime [pdf_file]) filled_app))
    = Some png_640x480.
Proof.
  destruct (preprocessor_runs_for_four_types canvas_runtime pdf_file []
              (mkView true false) filled_app) as (_ & Hreject & _).
  destruct Hreject as (Hsel & _ & Hkeep).
  - intros H. apply list_elem_of_In in H. cbn [In] in H.
    destruct H as [H|[H|[H|[H|[]]]]]; vm_compute in H; discriminate H.
  - split; [|exact Hkeep]. unfold exec. rewrite Hsel. reflexivity.
Defined.

(** X8. Selecting (or dropping) a file of an accepted type that decodes, on
    a runtime whose canvas re-encodes it, selects a file with the name and
    the MIME type of the original, the bytes of the canvas, the computed
    size and the time of the clock, and shows the success notification;
    only the first file of the list counts. *)
Theorem accepted_file_is_optimized rt file rest v w h bytes app :
  accepted_type (file_type file) = true →
  file_image file = Some (w, h) →
  canvas_2d_available rt = true →
  canvas_toBlob rt (scaled_dimensions w h).1 (scaled_dimensions w h).2
                (file_type file) = Some bytes →
  let selected :=
    mkFile (mkBlob bytes (file_type file) (Some (scaled_dimensions w h)))
           (file_name file) (clock_now rt) in
  let app' := exec (handleFileSelect rt (file :: rest)) app in
  selectedFile (st app') = Some selected ∧
  notification (st app') = Some (mkNotification success msg_optimized) ∧
  exec (handleDrop rt (file :: rest) v).2 app = app'.
Proof.
  intros Hty Himg Hctx Hblob selected app'. subst selected app'.
  unfold handleFileSelect, handleDrop. cbn [fst snd]. rewrite Hty.
  split; [apply processImage_reencodes; assumption|]. split; [|reflexivity].
  destruct app as [[sf d g il lp em r n mo] [un us tn iv lg] er].
  mrun. rewrite Himg. destruct (scaled_dimensions w h) as [w' h'].
  cbn [fst snd] in Hblob. mrun. rewrite Hctx, Hblob. reflexivity.
Qed.

Lemma accepted_file_is_optimized_witness :
  selectedFile
    (st (exec (handleFileSelect canvas_runtime [jpeg_1600x1200; pdf_file]) initial_app))
    = Some (mkFile (mkBlob [1; 2; 3]%N (lit "image/jpeg") (Some (800, 600)))
                   (lit "sketch.jpg") 1000).
Proof.
  destruct (accepted_file_is_optimized canvas_runtime jpeg_1600x1200 [pdf_file]
              (mkView true false) 1600 1200 [1; 2; 3]%N initial_app)
    as (Hsel & _ & _).
  - reflexivity.
  - reflexivity.
  - reflexivity.
  - reflexivity.
  - exact Hsel.
Defined.

End FileSelection.

(** * Further properties of the submission *)

Section SubmissionOutcomes.

Ltac run_valid app Hv :=
  destruct app as [[sf d g il lp em r n mo] [un us tn iv lg] er];
  destruct Hv as (Hsel & Hdesc & Hgen);
  cbn [st selectedFile description selectedGender] in Hsel, Hdesc, Hgen;
  subst sf; mrun;
  destruct (JsString.trim d) as [|c0 d0] eqn:Etrim; [done|]; clear Hdesc;
  destruct g as [|g0 gs]; [done|]; clear Hgen;
  mrun; rewrite elapse_live by (cbn; set_solver); mrun.

(** X9. A success response whose body is read gives the result a fresh
    object URL registered for exactly the blob of the response, with the
    fixed result message; the modal opens, the notification reports
    success, the progress is 100, and nothing is logged to the console. *)
Theorem handleSubmit_success_outcome app env file resp blob :
  passes_validation (st app) file →
  fetch_outcome env = Responded resp →
  response_ok resp = true →
  body_blob resp = Some blob →
  let app' := exec (handleSubmit env) app in
  result (st app') =
    Some (mkResult (Some (ObjectUrl (url_next (br app))))
                   (Some (lit "Face successfully generated!"))) ∧
  url_store (br app') !! url_next (br app) = Some blob ∧
  isModalOpen (st app') = true ∧
  notification (st app') =
    Some (mkNotification success
            (lit "Face was successfully generated from your sketch!")) ∧
  loadingProgress (st app') = 100%Q ∧
  console_entries (new_events (handleSubmit env) app) = [].
Proof.
  intros Hv Hout Hok Hblob app'. subst app'. run_valid app Hv.
  rewrite Hout. mrun. rewrite Hok. mrun.
  rewrite elapse_live by (cbn; set_solver). mrun. rewrite Hblob. mrun.
  rewrite lookup_insert_eq. rewrite <- !app_assoc. cbn [app].
  rewrite drop_app_length. repeat split.
Qed.

Lemma handleSubmit_success_outcome_witness :
  result (st (exec (handleSubmit env_success) filled_app)) =
    Some (mkResult (Some (ObjectUrl 0)) (Some (lit "Face successfully generated!"))) ∧
  url_store (br (exec (handleSubmit env_success) filled_app)) !! 0%nat
    = Some generated_png.
Proof.
  destruct (handleSubmit_success_outcome filled_app env_success png_640x480
              ok_response generated_png) as (Hres & Hurl & _).
  - split; [reflexivity|]. split; [vm_compute; discriminate|discriminate].
  - reflexivity.
  - reflexivity.
  - reflexivity.
  - split; [exact Hres|exact Hurl].
Defined.

(** X10. A rejected fetch, or a success response whose body read is
    rejected, ends like a server error: the rejection is the one console
    entry, the notification is the fixed generic text, and the previous
    result, the modal flag and the registry of object URLs are untouched. *)
Theorem handleSubmit_exception_outcome app env file :
  passes_validation (st app) file →
  (fetch_outcome env = NetworkFailure ∨
   ∃ resp, fetch_outcome env = Responded resp ∧
           response_ok resp = true ∧ body_blob resp = None) →
  let app' := exec (handleSubmit env) app in
  console_entries (new_events (handleSubmit env) app) =
    [match fetch_outcome env with
     | NetworkFailure => FetchRejected
     | Responded _ => BodyRejected
     end] ∧
  notification (st app') = Some (mkNotification error msg_generic_failure) ∧
  result (st app') = result (st app) ∧
  isModalOpen (st app') = isModalOpen (st app) ∧
  url_store (br app') = url_store (br app).
Proof.
  intros Hv Hout app'. subst app'. run_valid app Hv.
  destruct Hout as [Hout|(resp & Hout & Hok & Hblob)]; rewrite Hout; mrun.
  - rewrite <- !app_assoc. cbn [app]. rewrite drop_app_length. repeat split.
  - rewrite Hok. mrun. rewrite elapse_live by (cbn; set_solver). mrun.
    rewrite Hblob. mrun.
    rewrite <- !app_assoc. cbn [app]. rewrite drop_app_length. repeat split.
Qed.

Lemma handleSubmit_exception_outcome_witness :
  console_entries (new_events (handleSubmit env_slow_failure) filled_app)
    = [FetchRejected] ∧
  notification (st (exec (handleSubmit env_slow_failure) filled_app))
    = Some (mkNotification error msg_generic_failure).
Proof.
  destruct (handleSubmit_exception_outcome filled_app env_slow_failure png_640x480)
    as (Hlog & Hnote & _).
  - split; [reflexivity|]. split; [vm_compute; discriminate|discriminate].
  - left. reflexivity.
  - split; [exact Hlog|exact Hnote].
Defined.

(** X11. Whatever the inputs and whatever the server does, [handleSubmit]
    leaves the selected sketch, the description and the gender as the user
    entered them, so a failed submission can be retried as it is. *)
Theorem handleSubmit_keeps_inputs app env :
  selectedFile (st (exec (handleSubmit env) app)) = selectedFile (st app) ∧
  description (st (exec (handleSubmit env) app)) = description (st app) ∧
  selectedGender (st (exec (handleSubmit env) app)) = selectedGender (st app).
Proof.
  destruct (first_missing (st app)) as [f|] eqn:Hmiss.
  - unfold exec. rewrite (handleSubmit_rejects app env f Hmiss).
    destruct app as [[sf d g il lp em r n mo] w er]. repeat split.
  - assert (Hv : ∃ file, passes_validation (st app) file).
    { unfold first_missing in Hmiss. cbn [List.find missing] in Hmiss.
      destruct (selectedFile (st app)) as [file|] eqn:Hf; [|discriminate].
      destruct (forallb JsString.is_white_space (description (st app))) eqn:Hd;
        [discriminate|].
      destruct (selectedGender (st app)) eqn:Hg; [discriminate|].
      exists file. split; [exact Hf|]. split; [|rewrite Hg; discriminate].
      intros Ht. apply trim_nil_iff in Ht. congruence. }
    destruct Hv as [file Hv]. clear Hmiss. run_valid app Hv.
    destruct (fetch_outcome env) as [|resp]; mrun; [repeat split|].
    destruct (response_ok resp); mrun.
    + rewrite elapse_live by (cbn; set_solver). mrun.
      destruct (body_blob resp); repeat split.
    + edestruct reject_response_throws as (p & -> & _); [cbn; set_solver|].
      mrun. repeat split.
Qed.

(** The busy flag is up when a submission that passed validation returns. *)
Lemma handleSubmit_busy app env file :
  passes_validation (st app) file →
  isLoading (st (exec (handleSubmit env) app)) = true.
Proof.
  intros Hv. run_valid app Hv.
  destruct (fetch_outcome env) as [|resp]; mrun; [reflexivity|].
  destruct (response_ok resp); mrun.
  - rewrite elapse_live by (cbn; set_solver). mrun.
    destruct (body_blob resp); reflexivity.
  - edestruct reject_response_throws as (p & -> & _); [cbn; set_solver|].
    reflexivity.
Qed.

(** X12. Every submission that passes validation raises the busy flag and
    ends, on each outcome, with the flag still raised and one timeout of
    500 ms scheduled to lower it; when that callback runs, the flag is
    lowered and nothing else of the state changes. *)
Theorem handleSubmit_lowers_busy_flag_later app env file :
  passes_validation (st app) file →
  let app' := exec (handleSubmit env) app in
  isLoading (st app') = true ∧
  List.filter (λ e, match e with EvSetTimeout _ _ => true | _ => false end)
    (new_events (handleSubmit env) app) = [EvSetTimeout LowerBusyFlag 500] ∧
  isLoading (st (exec (timeout_fires LowerBusyFlag) app')) = false ∧
  exec (setIsLoading true) (exec (timeout_fires LowerBusyFlag) app') = app'.
Proof.
  intros Hv app'. subst app'.
  destruct (handleSubmit_valid_trace app env file Hv) as (mid & Hlog & Hmid & _).
  rewrite (new_events_of_log _ _ _ Hlog).
  pose proof (handleSubmit_busy app env file Hv) as Hbusy.
  split; [exact Hbusy|].
  split; [destruct Hmid as [->|[t ->]]; reflexivity|].
  destruct (exec (handleSubmit env) app) as [[sf d g il lp em r n mo] w er].
  cbn in Hbusy. subst il. split; reflexivity.
Qed.

Lemma handleSubmit_lowers_busy_flag_later_witness :
  isLoading (st (exec (handleSubmit env_server_error) filled_app)) = true ∧
  isLoading
    (st (exec (timeout_fires LowerBusyFlag)
           (exec (handleSubmit env_server_error) filled_app))) = false.
Proof.
  destruct (handleSubmit_lowers_busy_flag_later filled_app env_server_error
              png_640x480) as (Hup & _ & Hdown & _).
  - split; [reflexivity|]. split; [vm_compute; discriminate|discriminate].
  - split; [exact Hup|exact Hdown].
Defined.

Lemma shown_percent_bounds p :
  (0 <= p)%Q → (p < 88)%Q → 0 <= LoadingScreen.shown_percent p <= 88.
Proof.
  destruct p as [n d]. unfold Qle, Qlt, LoadingScreen.shown_percent. cbn [Qnum Qden].
  intros H0 H88.
  pose proof (math_round_div_bounds n (Zpos d) ltac:(lia)). nia.
Qed.

(** X13. When a submission that passed validation ends without a success
    response, the loading screen does not show completion: whatever
    firings of the timer happened, the percentage it displays from the
    progress it is handed lies between 0 and 88. *)
Theorem loading_screen_stays_incomplete app env file local :
  passes_validation (st app) file →
  Forall random_sample (ticks_pending env) →
  Forall random_sample (ticks_body env) →
  (∀ resp blob, fetch_outcome env = Responded resp →
                response_ok resp = true → body_blob resp ≠ Some blob) →
  0 <= LoadingScreen.shown_by (st (exec (handleSubmit env) app)) local <= 88.
Proof.
  intros Hv Hp Hb Hfail. unfold LoadingScreen.shown_by.
  rewrite (handleSubmit_busy app env file Hv). cbn [negb LoadingScreen.visibility_effect fst
    LoadingScreen.progress].
  apply shown_percent_bounds.
  - rewrite (handleSubmit_progress app env file Hv).
    pose proof (run_ticks_monotone (ticks_pending env) 0%Q Hp) as H1.
    destruct (fetch_outcome env) as [|resp]; [exact H1|].
    destruct (response_ok resp) eqn:Hok; cbn [andb].
    + destruct (body_blob resp) as [blob|] eqn:Hblob.
      * exfalso. exact (Hfail resp blob eq_refl Hok Hblob).
      * rewrite bool_decide_eq_false_2 by (intros [? ?]; discriminate).
        pose proof (run_ticks_monotone (ticks_body env)
                      (run_ticks (ticks_pending env) 0%Q) Hb) as H2.
        eapply Qle_trans; [exact H1|exact H2].
    + pose proof (run_ticks_monotone (ticks_body env)
                      (run_ticks (ticks_pending env) 0%Q) Hb) as H2.
      eapply Qle_trans; [exact H1|exact H2].
  - apply (handleSubmit_progress_incomplete app env file); assumption.
Qed.

Lemma loading_screen_stays_incomplete_witness :
  0 <= LoadingScreen.shown_by (st (exec (handleSubmit env_slow_failure) filled_app))
         (LoadingScreen.mkLocal 0 0 []) <= 88.
Proof.
  apply (loading_screen_stays_incomplete filled_app env_slow_failure png_640x480
           (LoadingScreen.mkLocal 0 0 [])).
  - split; [reflexivity|]. split; [vm_compute; discriminate|discriminate].
  - apply List.Forall_forall. intros r Hr. apply repeat_spec in Hr. subst r.
    split; [discriminate|reflexivity].
  - constructor.
  - intros resp blob Hr. discriminate Hr.
Defined.

(** X14. After either "Create New Image" button, or after "Remove image", a
    submission is turned away at the first check: it reports the missing
    sketch and reaches neither the network nor any other browser
    resource. Both reset buttons also empty the description and the
    gender and drop the result. *)
Theorem submission_after_reset_is_turned_away app env :
  Forall (λ reset,
            new_events (handleSubmit env) (exec reset app) = [] ∧
            notification (st (exec (handleSubmit env) (exec reset app)))
              = Some (mkNotification error msg_no_sketch))
         [onClick_createNew_panel; onClick_createNew_modal; onClick_removeImage] ∧
  Forall (λ reset,
            result (st (exec reset app)) = None ∧
            description (st (exec reset app)) = [] ∧
            selectedGender (st (exec reset app)) = [])
         [onClick_createNew_panel; onClick_createNew_modal] ∧
  isModalOpen (st (exec onClick_createNew_modal app)) = false.
Proof.
  destruct app as [[sf d g il lp em r n mo] [un us tn iv lg] er].
  assert (Hdrop : ∀ l : list Event, drop (length l) l = []) by apply drop_all.
  split; [|split]; repeat constructor; mrun;
    try (destruct r as [[[u|] m]|]; mrun;
         try (destruct (url_startsWith_blob u); mrun));
    first [apply Hdrop | reflexivity].
Qed.

End SubmissionOutcomes.

(** * Further properties of the [result] effect *)

Section ResultEffect.

(** X15. While the effect holds a result with an object URL, that URL is
    released when the component unmounts and when a commit finds a
    different result; a commit that finds the same result changes
    nothing, so the URL lives exactly as long as the result is current. *)
Theorem result_url_follows_result id m app :
  effect_result app = Some (Some (mkResult (Some (ObjectUrl id)) m)) →
  (id ∉ live_urls (exec unmount app)) ∧
  (result (st app) ≠ Some (mkResult (Some (ObjectUrl id)) m) →
   (id ∉ live_urls (exec commit_effects app)) ∧
   effect_result (exec commit_effects app) = Some (result (st app)) ∧
   st (exec commit_effects app) = st app) ∧
  (result (st app) = Some (mkResult (Some (ObjectUrl id)) m) →
   exec commit_effects app = app).
Proof.
  destruct app as [s [un us tn iv lg] er]. cbn [effect_result]. intros ->.
  split; [|split].
  - mrun. cbn [url_startsWith_blob]. rewrite dom_delete_L. set_solver.
  - intros Hne. cbn [st] in Hne. mrun.
    rewrite bool_decide_eq_false_2 by (intros H; apply Hne; symmetry; exact H).
    cbn [url_startsWith_blob]. mrun. rewrite dom_delete_L.
    split; [set_solver|]. split; reflexivity.
  - intros Heq. cbn [st] in Heq. mrun.
    rewrite bool_decide_eq_true_2 by (symmetry; exact Heq). reflexivity.
Qed.

Lemma result_url_follows_result_witness :
  0%nat ∉ live_urls
    (exec unmount (exec rerender (exec (handleSubmit env_success) filled_app))).
Proof.
  destruct (result_url_follows_result 0 (Some (lit "Face successfully generated!"))
              (exec rerender (exec (handleSubmit env_success) filled_app)))
    as (Hgone & _).
  - vm_compute. reflexivity.
  - exact Hgone.
Defined.

(** X16. Committing twice is committing once: a re-render that follows
    another without a change of [result] runs no cleanup. *)
Theorem commit_effects_idempotent app :
  exec commit_effects (exec commit_effects app) = exec commit_effects app.
Proof.
  destruct app as [[sf d g il lp em r n mo] [un us tn iv lg] [prev|]]; mrun.
  - destruct (bool_decide (prev = r)) eqn:E.
    + mrun. rewrite E. reflexivity.
    + destruct prev as [[[u|] m]|]; mrun;
        try (destruct (url_startsWith_blob u); mrun);
        rewrite bool_decide_eq_true_2 by reflexivity; reflexivity.
  - rewrite bool_decide_eq_true_2 by reflexivity. reflexivity.
Qed.

(** X17. A second successful submission replaces the result: once the
    component has rendered again, the object URL of the previous result is
    revoked and the URL of the new result is registered for the new blob. *)
Theorem resubmission_releases_previous_result app env file resp blob old m :
  passes_validation (st app) file →
  result (st app) = Some (mkResult (Some (ObjectUrl old)) m) →
  effect_result app = Some (result (st app)) →
  (old < url_next (br app))%nat →
  fetch_outcome env = Responded resp →
  response_ok resp = true →
  body_blob resp = Some blob →
  let app' := exec rerender (exec (handleSubmit env) app) in
  (old ∉ live_urls app') ∧
  url_store (br app') !! url_next (br app) = Some blob ∧
  imageUrl <$> result (st app') = Some (Some (ObjectUrl (url_next (br app)))).
Proof.
  intros Hv Hres Heff Hold Hout Hok Hblob app'. subst app'.
  destruct app as [[sf d g il lp em r n mo] [un us tn iv lg] er].
  cbn [st br result effect_result url_next] in Hres, Heff, Hold. subst r er.
  destruct Hv as (Hsel & Hdesc & Hgen).
  cbn [st selectedFile description selectedGender] in Hsel, Hdesc, Hgen.
  subst sf. mrun.
  destruct (JsString.trim d) as [|c0 d0] eqn:Etrim; [done|].
  destruct g as [|g0 gs]; [done|].
  mrun. rewrite elapse_live by (cbn; set_solver). mrun.
  rewrite Hout. mrun. rewrite Hok. mrun.
  rewrite elapse_live by (cbn; set_solver). mrun. rewrite Hblob. mrun.
  rewrite bool_decide_eq_false_2 by (intros [= ->]; lia).
  cbn [url_startsWith_blob]. mrun.
  split; [rewrite dom_delete_L; set_solver|].
  split; [|reflexivity].
  rewrite lookup_delete_ne by lia.
  rewrite !lookup_insert_ne by lia. apply lookup_insert_eq.
Qed.

Lemma resubmission_releases_previous_result_witness :
  0%nat ∉ live_urls
    (exec rerender
       (exec (handleSubmit env_success)
          (exec rerender (exec (handleSubmit env_success) filled_app)))).
Proof.
  destruct (resubmission_releases_previous_result
              (exec rerender (exec (handleSubmit env_success) filled_app))
              env_success png_640x480 ok_response generated_png 0%nat
              (Some (lit "Face successfully generated!"))) as (Hold & _).
  - split; [vm_compute; reflexivity|].
    split; [vm_compute; discriminate|vm_compute; discriminate].
  - vm_compute. reflexivity.
  - vm_compute. reflexivity.
  - vm_compute. lia.
  - reflexivity.
  - reflexivity.
  - reflexivity.
  - exact Hold.
Defined.

(** X18. Evaluating the component body never releases an object URL: every
    URL registered before a render is registered after it, and the events
    of a render are all creations. *)
Theorem render_only_registers app :
  (live_urls app ⊆ live_urls (exec render app)) ∧
  Forall (λ e, match e with EvCreateObjectURL _ => True | _ => False end)
         (new_events render app) ∧
  st (exec render app) = st app.
Proof.
  destruct app as [[sf d g il lp em r n mo] [un us tn iv lg] er].
  mrun. destruct sf as [f|]; mrun; [destruct r as [res|]; mrun|].
  - rewrite !dom_insert_L, <- !app_assoc. cbn [app]. rewrite drop_app_length.
    split; [set_solver|]. split; [repeat constructor|reflexivity].
  - rewrite !dom_insert_L, drop_app_length.
    split; [set_solver|]. split; [repeat constructor|reflexivity].
  - destruct r; mrun; rewrite drop_all;
      (split; [set_solver|split; [constructor|reflexivity]]).
Qed.

End ResultEffect.

(** * The notification timer *)

Section NotificationTimer.

Lemma notification_effect_pending n t :
  hide_invariant t →
  timeouts (notification_effect n t) =
    match n with
    | Some _ => {[ timeout_next t := 5000 ]}
    | None => ∅
    end ∧
  hide_invariant (notification_effect n t).
Proof.
  unfold hide_invariant, notification_effect. intros Hinv.
  assert (Hclean : match hide_cleanup t with
                   | Some timer => delete timer (timeouts t)
                   | None => timeouts t
                   end = ∅).
  { rewrite Hinv. destruct (hide_cleanup t) as [timer|]; [|reflexivity].
    apply delete_singleton_eq. }
  rewrite Hclean. destruct n; cbn [timeouts hide_cleanup]; split; reflexivity.
Qed.

Lemma hide_step_invariant t e : hide_invariant t → hide_invariant (hide_step t e).
Proof.
  intros Hinv. destruct e as [n|timer]; cbn [hide_step].
  - apply notification_effect_pending. exact Hinv.
  - destruct (timeouts t !! timer) eqn:E; [|exact Hinv].
    unfold hide_timeout_fires. unfold hide_invariant, notification_effect.
    cbn [timeouts hide_cleanup]. unfold hide_invariant in Hinv. rewrite Hinv in *.
    destruct (hide_cleanup t) as [c|]; [|reflexivity].
    apply lookup_singleton_Some in E as [<- _].
    rewrite (delete_singleton_eq c 5000). apply delete_empty.
Qed.

Lemma hide_run_invariant es : ∀ t, hide_invariant t → hide_invariant (hide_run es t).
Proof.
  induction es as [|e es IH]; intros t Hinv; [exact Hinv|].
  cbn. apply IH. apply hide_step_invariant. exact Hinv.
Qed.

(** X19. Through any sequence of commits and elapsed delays at most one
    timeout of the notification effect is pending, the one its cleanup
    will clear, and it is armed for 5000 ms. A commit of a notification
    leaves exactly one pending timeout, a fresh one, so every notification
    gets the full delay; a commit of [null], or the pending timeout
    firing, leaves none. *)
Theorem notification_timer_is_single es :
  let t := hide_run es initial_hide_timers in
  timeouts t =
    match hide_cleanup t with
    | Some timer => {[ timer := 5000 ]}
    | None => ∅
    end ∧
  (∀ n, timeouts (hide_step t (Committed (Some n))) = {[ timeout_next t := 5000 ]}) ∧
  timeouts (hide_step t (Committed None)) = ∅ ∧
  (∀ timer, hide_cleanup t = Some timer →
            timeouts (hide_step t (Elapsed timer)) = ∅ ∧
            hide_cleanup (hide_step t (Elapsed timer)) = None).
Proof.
  intros t.
  assert (Hinv : hide_invariant t)
    by (apply hide_run_invariant; reflexivity).
  split; [exact Hinv|]. split; [|split].
  - intros n. apply (notification_effect_pending (Some n) t Hinv).
  - apply (notification_effect_pending None t Hinv).
  - intros timer Hc. cbn [hide_step]. unfold hide_invariant in Hinv.
    rewrite Hc in Hinv. rewrite Hinv. rewrite lookup_singleton_eq.
    unfold hide_timeout_fires, notification_effect. cbn [timeouts hide_cleanup].
    rewrite Hc, Hinv. rewrite (delete_singleton_eq timer 5000).
    split; [apply delete_empty|reflexivity].
Qed.

Lemma notification_timer_is_single_witness :
  timeouts
    (hide_run [Committed (Some (mkNotification error msg_no_sketch));
               Committed (Some (mkNotification success msg_optimized));
               Elapsed 1%nat] initial_hide_timers) = ∅.
Proof.
  destruct (notification_timer_is_single
              [Committed (Some (mkNotification error msg_no_sketch));
               Committed (Some (mkNotification success msg_optimized))])
    as (_ & _ & _ & Hfire).
  destruct (Hfire 1%nat) as [Hnone _].
  - reflexivity.
  - exact Hnone.
Defined.

End NotificationTimer.

(** * The overlays: Escape key and scroll lock *)

Section Overlays.

Import Overlay.

(** One run of the effect on a document that holds at most the listener of
    the previous run. *)
Lemma overlay_effect_shape isOpen m :
  keydown (doc m) = [] ∨
    (∃ h, cleanup m = Some h ∧ keydown (doc m) = [(h, true)]) →
  let m' := effect isOpen m in
  let handler := listener_next (doc m) in
  cleanup m' = Some handler ∧
  keydown (doc m') = (if isOpen then [(handler, true)] else []) ∧
  body_overflow (doc m') =
    (if isOpen then lit "hidden"
     else match cleanup m with
          | Some _ => []
          | None => body_overflow (doc m)
          end).
Proof.
  intros Hshape. destruct m as [[ln kd ov] [c|]]; cbn [doc cleanup keydown] in Hshape.
  - assert (Hkd : List.filter (λ l, negb (fst l =? c)%nat) kd = []).
    { destruct Hshape as [->|(h & [= <-] & ->)]; [reflexivity|].
      cbn. rewrite Nat.eqb_refl. reflexivity. }
    unfold effect, run_cleanup. cbn [doc cleanup keydown listener_next body_overflow].
    rewrite Hkd. destruct isOpen; repeat split.
  - destruct Hshape as [Hkd|(h & [=] & _)]. cbn [keydown] in Hkd. subst kd.
    unfold effect. cbn [doc cleanup keydown listener_next body_overflow].
    destruct isOpen; repeat split.
Qed.

Lemma overlay_commits_shape opens :
  ∀ m,
    keydown (doc m) = [] ∨
      (∃ h, cleanup m = Some h ∧ keydown (doc m) = [(h, true)]) →
    let m' := commits opens m in
    keydown (doc m') = [] ∨
      (∃ h, cleanup m' = Some h ∧ keydown (doc m') = [(h, true)]).
Proof.
  induction opens as [|o opens IH]; intros m Hshape; [exact Hshape|].
  cbn. apply IH.
  destruct (overlay_effect_shape o m Hshape) as (Hc & Hk & _).
  destruct o; [right; eexists; split; eassumption|left; exact Hk].
Qed.

(** X20. After any sequence of runs of the overlay effect on a document
    without listeners, the Escape listener and the scroll lock follow the
    last [isOpen]: open, exactly one listener is registered and the body
    overflow is [hidden]; closed, no listener is registered, and the
    overflow is the empty string as soon as an earlier run has happened
    (whatever it was before the overlay mounted). Unmounting leaves no
    listener and the empty overflow. *)
Theorem overlay_follows_isOpen d0 opens isOpen :
  keydown d0 = [] →
  let m := commits (opens ++ [isOpen]) (mkMounted d0 None) in
  length (keydown (doc m)) = (if isOpen then 1%nat else 0%nat) ∧
  (isOpen = true → body_overflow (doc m) = lit "hidden") ∧
  (isOpen = false → opens ≠ [] → body_overflow (doc m) = []) ∧
  keydown (doc (unmount m)) = [] ∧
  body_overflow (doc (unmount m)) = [].
Proof.
  intros Hd0 m. subst m. unfold commits. rewrite fold_left_app. cbn [fold_left].
  fold (commits opens (mkMounted d0 None)).
  pose proof (overlay_commits_shape opens (mkMounted d0 None) (or_introl Hd0)) as Hshape.
  cbn zeta in Hshape.
  set (m0 := commits opens (mkMounted d0 None)) in *.
  destruct (overlay_effect_shape isOpen m0 Hshape) as (Hc & Hk & Ho).
  split; [rewrite Hk; destruct isOpen; reflexivity|].
  split; [intros ->; exact Ho|].
  split.
  - intros -> Hne. rewrite Ho.
    destruct opens as [|o opens] using rev_ind; [contradiction|].
    subst m0. unfold commits. rewrite fold_left_app. reflexivity.
  - unfold unmount. rewrite Hc. cbn [doc]. unfold run_cleanup.
    cbn [keydown body_overflow]. rewrite Hk.
    destruct isOpen; cbn; rewrite ?Nat.eqb_refl; split; reflexivity.
Qed.

Lemma overlay_follows_isOpen_witness :
  body_overflow
    (doc (commits [true; false] (mkMounted (mkDocument 0 [] (lit "scroll")) None)))
    = [].
Proof.
  destruct (overlay_follows_isOpen (mkDocument 0 [] (lit "scroll")) [true] false)
    as (_ & _ & Hclosed & _).
  - reflexivity.
  - apply Hclosed; [reflexivity|discriminate].
Defined.

(** X21. A key press closes an overlay only when it is Escape and the
    overlay is open, and then [onClose] is called exactly once; any other
    key, and any key while the overlay is closed, calls nothing. *)
Theorem overlay_closes_on_escape_only d0 opens isOpen key :
  keydown d0 = [] →
  keydown_event key (doc (commits (opens ++ [isOpen]) (mkMounted d0 None))) =
    (if bool_decide (key = lit "Escape") && isOpen then 1%nat else 0%nat).
Proof.
  intros Hd0. unfold commits. rewrite fold_left_app. cbn [fold_left].
  fold (commits opens (mkMounted d0 None)).
  pose proof (overlay_commits_shape opens (mkMounted d0 None) (or_introl Hd0)) as Hshape.
  cbn zeta in Hshape.
  destruct (overlay_effect_shape isOpen _ Hshape) as (_ & Hk & _).
  unfold keydown_event. rewrite Hk.
  destruct isOpen; cbn [List.filter snd].
  - destruct (bool_decide (key = lit "Escape")); reflexivity.
  - rewrite andb_false_r. reflexivity.
Qed.

Lemma overlay_closes_on_escape_only_witness :
  keydown_event (lit "Escape")
    (doc (commits [false; true] (mkMounted (mkDocument 0 [] []) None))) = 1%nat ∧
  keydown_event (lit "Enter")
    (doc (commits [false; true] (mkMounted (mkDocument 0 [] []) None))) = 0%nat.
Proof.
  split.
  - apply (overlay_closes_on_escape_only (mkDocument 0 [] []) [false] true (lit "Escape")).
    reflexivity.
  - apply (overlay_closes_on_escape_only (mkDocument 0 [] []) [false] true (lit "Enter")).
    reflexivity.
Defined.

End Overlays.

(** * The loading screen *)

Section LoadingScreenTimers.

Import LoadingScreen.

Lemma incrementPerUpdate_value : (incrementPerUpdate == 19 # 60)%Q.
Proof. reflexivity. Qed.

Lemma progress_update_spec p :
  (p + incrementPerUpdate < 95 → progress_update p = p + incrementPerUpdate)%Q ∧
  (95 <= p + incrementPerUpdate → progress_update p = 95)%Q.
Proof.
  unfold progress_update.
  destruct (Qle_bool 95 (p + incrementPerUpdate)) eqn:E.
  - apply Qle_bool_iff in E. split; [intros H; lra|reflexivity].
  - split; [reflexivity|]. intros H. apply Qle_bool_iff in H. congruence.
Qed.

(** X22. The fallback progress of the loading screen is clamped: from any
    value between 0 and 95 an update never lowers the value and never
    passes 95, and 95 is a fixed point; so the values the timer produces
    from 0 never decrease and stay between 0 and 95. (Only order is
    stated, which the rounding of the additions preserves; at which tick
    the clamp is reached depends on that rounding and is not stated.) *)
Theorem fallback_progress_is_clamped :
  (∀ p, (0 <= p)%Q → (p <= 95)%Q →
        (p <= progress_update p)%Q ∧ (progress_update p <= 95)%Q) ∧
  progress_update 95 = 95%Q ∧
  (∀ n, (0 <= Nat.iter n progress_update 0)%Q ∧
        (Nat.iter n progress_update 0 <= 95)%Q ∧
        (Nat.iter n progress_update 0 <= Nat.iter (S n) progress_update 0)%Q).
Proof.
  pose proof incrementPerUpdate_value as Hinc.
  assert (Hstep : ∀ p, (0 <= p)%Q → (p <= 95)%Q →
            (p <= progress_update p)%Q ∧ (progress_update p <= 95)%Q).
  { intros p H0 H95. destruct (progress_update_spec p) as [Hlt Hge].
    destruct (Qlt_le_dec (p + incrementPerUpdate) 95) as [Hc|Hc].
    - rewrite (Hlt Hc). split; lra.
    - rewrite (Hge Hc). split; lra. }
  assert (Hrange : ∀ n, (0 <= Nat.iter n progress_update 0%Q)%Q ∧
                        (Nat.iter n progress_update 0%Q <= 95)%Q).
  { induction n as [|n [IH0 IH95]]; [split; discriminate|].
    rewrite Nat.iter_succ. destruct (Hstep _ IH0 IH95) as [Hlow Hhigh].
    split; [lra|exact Hhigh]. }
  split; [exact Hstep|]. split; [reflexivity|].
  intros n. destruct (Hrange n) as [H0 H95].
  split; [exact H0|]. split; [exact H95|].
  rewrite Nat.iter_succ. apply (Hstep _ H0 H95).
Qed.

Lemma fallback_progress_is_clamped_witness :
  (94 <= progress_update 94)%Q ∧ (progress_update 94 <= 95)%Q.
Proof.
  destruct fallback_progress_is_clamped as (Hstep & _ & _).
  apply (Hstep 94%Q); discriminate.
Defined.

Lemma message_update_mod k :
  (k < 6)%nat → message_update k = ((k + 1) mod 6)%nat.
Proof.
  intros Hk. do 6 (destruct k as [|k]; [reflexivity|]). lia.
Qed.

(** X23. The message timer never leaves the list: whatever the index was,
    the updated index points at one of the six messages; and from an index
    in range, [n] ticks advance it by [n] modulo 6. *)
Theorem message_index_stays_in_range :
  (∀ prev, is_Some (loadingMessages !! message_update prev)) ∧
  (∀ n i, (i < 6)%nat →
          Nat.iter n message_update i = ((i + n) mod 6)%nat).
Proof.
  split.
  - intros prev. apply lookup_lt_is_Some. unfold message_update.
    change (length loadingMessages) with 6%nat.
    destruct (6 - 1 <=? prev)%nat eqn:E; [lia|].
    apply Nat.leb_gt in E. lia.
  - intros n i Hi. induction n as [|n IH].
    + rewrite Nat.add_0_r, Nat.mod_small by lia. reflexivity.
    + rewrite Nat.iter_succ. rewrite IH.
      rewrite message_update_mod by (apply Nat.mod_upper_bound; lia).
      rewrite Nat.Div0.add_mod_idemp_l. f_equal. lia.
Qed.

Lemma message_index_stays_in_range_witness :
  Nat.iter 7 message_update 5%nat = 0%nat.
Proof.
  destruct message_index_stays_in_range as [_ Hcycle].
  apply (Hcycle 7%nat 5%nat). lia.
Defined.

Lemma dots_update_mod k :
  (k < 4)%nat →
  dots_update (repeat 46%N k) = repeat 46%N ((k + 1) mod 4).
Proof.
  intros Hk. do 4 (destruct k as [|k]; [vm_compute; reflexivity|]). lia.
Qed.

(** X24. The animated dots cycle with period four: after [n] ticks from
    the empty string the text is [n mod 4] full stops, so it is never
    longer than three characters. *)
Theorem dots_cycle n :
  Nat.iter n dots_update [] = repeat 46%N (n mod 4) ∧
  (length (Nat.iter n dots_update []) <= 3)%nat.
Proof.
  assert (H : Nat.iter n dots_update [] = repeat 46%N (n mod 4)).
  { induction n as [|n IH]; [reflexivity|].
    rewrite Nat.iter_succ. rewrite IH.
    rewrite dots_update_mod by (apply Nat.mod_upper_bound; lia).
    rewrite Nat.Div0.add_mod_idemp_l. do 2 f_equal. lia. }
  split; [exact H|]. rewrite H, repeat_length.
  pose proof (Nat.mod_upper_bound n 4). lia.
Qed.

End LoadingScreenTimers.

(** * The download buttons *)

Section Download.

Lemma filter_out_fresh (link : nat) (l : list nat) :
  ¬ In link l →
  List.filter (λ n, negb (n =? link)%nat) (l ++ [link]) = l.
Proof.
  intros Hfresh. induction l as [|a l IH]; cbn.
  - rewrite Nat.eqb_refl. reflexivity.
  - destruct (a =? link)%nat eqn:E.
    + apply Nat.eqb_eq in E. subst a. exfalso. apply Hfresh. left; reflexivity.
    + cbn. f_equal. apply IH. intros H. apply Hfresh. right; exact H.
Qed.

(** X25. A download with a truthy URL clicks one anchor, whose [href] is
    the URL and whose name is [generated-face-<now>.png], and leaves the
    children of the body as they were (the anchor is appended and removed
    again); without a URL, or with the empty string, nothing happens. *)
Theorem handleDownload_leaves_no_trace u now d :
  ¬ In (element_next d) (body_children d) →
  (url_truthy u = true →
   body_children (handleDownload (Some u) now d) = body_children d ∧
   downloads (handleDownload (Some u) now d) =
     downloads d ++ [(u, download_name now)]) ∧
  (url_truthy u = false → handleDownload (Some u) now d = d) ∧
  handleDownload None now d = d.
Proof.
  intros Hfresh. unfold handleDownload. split; [|split; [|reflexivity]].
  - intros ->. unfold removeChild, appendChild.
    cbn [body_children element_next downloads].
    rewrite filter_out_fresh by exact Hfresh. split; reflexivity.
  - intros ->. reflexivity.
Qed.

Lemma handleDownload_leaves_no_trace_witness :
  body_children (handleDownload (Some (ObjectUrl 3)) 1700000000000 (mkDom [0; 1]%nat 2 []))
    = [0%nat; 1%nat] ∧
  downloads (handleDownload (Some (ObjectUrl 3)) 1700000000000 (mkDom [0; 1]%nat 2 []))
    = [(ObjectUrl 3, lit "generated-face-1700000000000.png")].
Proof.
  destruct (handleDownload_leaves_no_trace (ObjectUrl 3) 1700000000000
              (mkDom [0; 1]%nat 2 [])) as (Hclick & _).
  - cbn. intros [H|[H|[]]]; discriminate H.
  - destruct (Hclick eq_refl) as [Hbody Hdown].
    split; [exact Hbody|]. rewrite Hdown. reflexivity.
Defined.

Lemma lit_injective (s1 s2 : string) : lit s1 = lit s2 → s1 = s2.
Proof.
  unfold JsString.lit. intros H.
  rewrite <- (string_of_list_ascii_of_string s1), <- (string_of_list_ascii_of_string s2).
  f_equal. revert H. generalize (list_ascii_of_string s1) (list_ascii_of_string s2).
  induction l as [|a l IH]; intros [|b l']; cbn; try discriminate; [reflexivity|].
  intros [= Hab Hl]. f_equal; [|apply IH; exact Hl].
  rewrite <- (ascii_N_embedding a), <- (ascii_N_embedding b). f_equal. exact Hab.
Qed.

Lemma to_int_proper z :
  Z.to_int z ≠ Decimal.Pos Decimal.Nil ∧ Z.to_int z ≠ Decimal.Neg Decimal.Nil.
Proof.
  destruct z; cbn; split; try discriminate;
    intros [= H]; revert H; apply Unsigned.to_uint_nonnil.
Qed.

Lemma of_int_injective a b : JsString.of_int a = JsString.of_int b → a = b.
Proof.
  unfold JsString.of_int. intros H. apply lit_injective in H.
  destruct (to_int_proper a) as [Ha1 Ha2], (to_int_proper b) as [Hb1 Hb2].
  pose proof (NilZero.isi _ Ha1 Ha2) as Ia. pose proof (NilZero.isi _ Hb1 Hb2) as Ib.
  rewrite H in Ia. rewrite Ia in Ib. injection Ib as Hab.
  rewrite <- (DecimalZ.of_to a), <- (DecimalZ.of_to b). f_equal. exact Hab.
Qed.

(** X26. Downloads started at different milliseconds are saved under
    different names: the name determines the time stamp it was built
    from. *)
Theorem download_names_differ a b :
  a ≠ b → download_name a ≠ download_name b.
Proof.
  intros Hab H. apply Hab. unfold download_name in H.
  apply app_inv_head in H. apply app_inv_tail in H.
  apply of_int_injective. exact H.
Qed.

Lemma download_names_differ_witness :
  download_name 1700000000000 ≠ download_name 1700000000001.
Proof.
  apply (download_names_differ 1700000000000 1700000000001). lia.
Defined.

End Download.

(** * Submissions, seen from outside *)

Section SubmissionSummary.

Lemma first_missing_none s :
  first_missing s = None → ∃ file, passes_validation s file.
Proof.
  unfold first_missing. cbn [List.find missing]. intros Hmiss.
  destruct (selectedFile s) as [file|] eqn:Hf; [|discriminate].
  destruct (forallb JsString.is_white_space (description s)) eqn:Hd; [discriminate|].
  destruct (selectedGender s) eqn:Hg; [discriminate|].
  exists file. split; [exact Hf|]. split; [|rewrite Hg; discriminate].
  intros Ht. apply trim_nil_iff in Ht. congruence.
Qed.

(** X27. A request reaches the network exactly when nothing is missing:
    a sketch is selected, the description has a code unit that is not
    white space, and a gender is chosen. *)
Theorem request_sent_iff_inputs_complete app env :
  fetches (new_events (handleSubmit env) app) ≠ [] ↔ first_missing (st app) = None.
Proof.
  destruct (first_missing (st app)) as [f|] eqn:Hmiss.
  - split; [|discriminate]. intros Hsent. exfalso. apply Hsent.
    unfold new_events, exec. rewrite (handleSubmit_rejects app env f Hmiss).
    destruct app as [[sf d g il lp em r n mo] [un us tn iv lg] er].
    cbn. rewrite drop_all. reflexivity.
  - split; [reflexivity|]. intros _.
    destruct (first_missing_none _ Hmiss) as [file Hv].
    destruct (handleSubmit_valid_trace app env file Hv) as (mid & Hlog & Hmid & _).
    rewrite (new_events_of_log _ _ _ Hlog).
    destruct Hmid as [->|[t ->]]; discriminate.
Qed.

(** X28. Every submission starts its progress from 0: the progress a
    submission ends with depends on what the server and the timer did
    during that submission and not on the progress, or anything else, the
    component held before. *)
Theorem handleSubmit_progress_restarts app1 app2 env file1 file2 :
  passes_validation (st app1) file1 →
  passes_validation (st app2) file2 →
  loadingProgress (st (exec (handleSubmit env) app1)) =
  loadingProgress (st (exec (handleSubmit env) app2)).
Proof.
  intros Hv1 Hv2.
  rewrite (handleSubmit_progress app1 env file1 Hv1).
  rewrite (handleSubmit_progress app2 env file2 Hv2). reflexivity.
Qed.

Lemma handleSubmit_progress_restarts_witness :
  loadingProgress
    (st (exec (handleSubmit env_server_error)
           (exec (handleSubmit env_slow_failure) filled_app))) =
  loadingProgress (st (exec (handleSubmit env_server_error) filled_app)).
Proof.
  apply (handleSubmit_progress_restarts
           (exec (handleSubmit env_slow_failure) filled_app) filled_app
           env_server_error png_640x480 png_640x480).
  - split; [vm_compute; reflexivity|].
    split; [vm_compute; discriminate|vm_compute; discriminate].
  - split; [reflexivity|]. split; [vm_compute; discriminate|discriminate].
Defined.

End SubmissionSummary.

(** * Oversized images: what is selected, and what is dropped *)

Section OversizedImages.

(** With an aspect ratio of at most 1600 to 1 both computed sides have
    pixels. *)
Lemma scaled_dimensions_positive w h :
  0 < w → 0 < h → w <= 1600 * h → h <= 1600 * w →
  0 < (scaled_dimensions w h).1 ∧ 0 < (scaled_dimensions w h).2.
Proof.
  intros Hw Hh Hwide Htall. unfold scaled_dimensions, MAX_WIDTH, MAX_HEIGHT.
  destruct (800 <? w) eqn:E1.
  - apply Z.ltb_lt in E1.
    pose proof (math_round_div_bounds (h * 800) w ltac:(lia)) as B1.
    set (h1 := math_round_div (h * 800) w) in *.
    assert (0 < h1) by nia.
    destruct (800 <? h1) eqn:E2; cbn [fst snd]; [|lia].
    apply Z.ltb_lt in E2.
    pose proof (math_round_div_bounds (800 * 800) h1 ltac:(lia)) as B2.
    assert (h1 <= 1280000) by nia.
    split; [nia|lia].
  - apply Z.ltb_ge in E1. destruct (800 <? h) eqn:E2; cbn [fst snd]; [|lia].
    apply Z.ltb_lt in E2.
    pose proof (math_round_div_bounds (w * 800) h ltac:(lia)) as B2.
    split; [nia|lia].
Qed.

(** Beyond that ratio the computed canvas has a zero side. *)
Lemma scaled_dimensions_strip w h :
  (800 < w ∧ 0 <= h ∧ 1600 * h < w) ∨ (0 <= w <= 800 ∧ 800 < h ∧ 1600 * w < h) →
  (scaled_dimensions w h).1 = 0 ∨ (scaled_dimensions w h).2 = 0.
Proof.
  unfold scaled_dimensions, MAX_WIDTH, MAX_HEIGHT.
  intros [(Hw & Hh & Hstrip)|(Hw & Hh & Hstrip)].
  - assert (E1 : (800 <? w) = true) by (apply Z.ltb_lt; lia). rewrite E1.
    pose proof (math_round_div_bounds (h * 800) w ltac:(lia)).
    assert (Hz : math_round_div (h * 800) w = 0) by nia. rewrite Hz.
    right. reflexivity.
  - assert (E1 : (800 <? w) = false) by (apply Z.ltb_ge; lia).
    assert (E2 : (800 <? h) = true) by (apply Z.ltb_lt; lia).
    rewrite E1, E2.
    pose proof (math_round_div_bounds (w * 800) h ltac:(lia)).
    left. cbn [fst]. nia.
Qed.

(** The part of C1 that holds: for an oversized image whose aspect ratio
    is at most 1600 to 1, on a runtime that re-encodes every canvas with
    pixels, [processImage] selects an output whose larger side is 800 (the
    side that was the larger one of the input) and whose other side has
    pixels and is less than one pixel from the exact proportional value. *)
Lemma processImage_caps_moderate_shapes rt file w h app :
  file_image file = Some (w, h) →
  800 < w ∨ 800 < h →
  0 < w → 0 < h → w <= 1600 * h → h <= 1600 * w →
  encodes_nonempty_canvas rt →
  ∃ out w' h',
    selectedFile (st (exec (processImage rt file) app)) = Some out ∧
    file_image out = Some (w', h') ∧
    0 < w' ∧ 0 < h' ∧
    Z.max w' h' = 800 ∧
    (h <= w → w' = 800 ∧ Z.abs (h' * w - 800 * h) < w) ∧
    (w < h → h' = 800 ∧ Z.abs (w' * h - 800 * w) < h).
Proof.
  intros Himg Hbig Hw Hh Hwide Htall [Hctx Henc].
  pose proof (scaled_dimensions_oversized w h ltac:(lia) ltac:(lia) Hbig) as Hdim.
  destruct (scaled_dimensions_positive w h Hw Hh Hwide Htall) as [Hw' Hh'].
  destruct (Henc _ _ (file_type file) Hw' Hh') as [bytes Hblob].
  rewrite (processImage_reencodes rt file w h bytes app Himg Hctx Hblob).
  destruct (scaled_dimensions w h) as [w' h']. cbn [fst snd] in Hw', Hh'.
  destruct Hdim as (Hmax & _ & _ & Hwider & Htaller).
  eexists _, w', h'. split; [reflexivity|]. split; [reflexivity|].
  split; [exact Hw'|]. split; [exact Hh'|]. split; [exact Hmax|].
  split; assumption.
Qed.

(** The example of the specification: on such a runtime a 1600x1200 JPEG
    comes out 800x600. *)
Lemma processImage_example_1600x1200 :
  ∃ out,
    selectedFile (st (exec (processImage html_canvas_runtime jpeg_1600x1200) initial_app))
      = Some out ∧
    file_image out = Some (800, 600).
Proof.
  assert (Hrt : encodes_nonempty_canvas html_canvas_runtime).
  { split; [reflexivity|]. intros w h ty Hw Hh.
    cbn [html_canvas_runtime canvas_toBlob].
    destruct (w =? 0) eqn:E1; [apply Z.eqb_eq in E1; lia|].
    destruct (h =? 0) eqn:E2; [apply Z.eqb_eq in E2; lia|].
    cbn [orb]. eexists. reflexivity. }
  assert (Hbig : 800 < 1600 ∨ 800 < 1200) by (left; lia).
  destruct (processImage_caps_moderate_shapes html_canvas_runtime jpeg_1600x1200
              1600 1200 initial_app eq_refl Hbig eq_refl eq_refl
              ltac:(discriminate) ltac:(discriminate) Hrt)
    as (out & w' & h' & Hsel & Himg & _ & _ & _ & Hwide & _).
  exists out. split; [exact Hsel|].
  destruct Hwide as [Hw' Hh']; [lia|].
  rewrite Himg. f_equal. f_equal; lia.
Qed.

(** Every strip is dropped: on a canvas with a 2D context that hands
    [null] for a canvas without pixels, an oversized image more than 1600
    times wider than tall, or more than 1600 times taller than wide and at
    most 800 wide, leaves the state as it was. *)
Lemma processImage_selects_nothing_for_strips rt file w h app :
  file_image file = Some (w, h) →
  (800 < w ∧ 0 <= h ∧ 1600 * h < w) ∨ (0 <= w <= 800 ∧ 800 < h ∧ 1600 * w < h) →
  canvas_2d_available rt = true →
  empty_canvas_gives_null rt →
  completion (processImage rt file) app = Normal tt ∧
  st (exec (processImage rt file) app) = st app.
Proof.
  intros Himg Hstrip Hctx Hnull.
  pose proof (scaled_dimensions_strip w h Hstrip) as Hzero.
  assert (Hblob : canvas_toBlob rt (scaled_dimensions w h).1 (scaled_dimensions w h).2
                    (file_type file) = None) by (apply Hnull; exact Hzero).
  destruct app as [[sf d g il lp em r n mo] [un us tn iv lg] er].
  mrun. rewrite Himg. destruct (scaled_dimensions w h) as [w' h'].
  cbn [fst snd] in Hblob. mrun. rewrite Hctx, Hblob. split; reflexivity.
Qed.

(** C1, at a failing input. A JPEG of 2000 by 1 pixels is wider than 800,
    so the claim promises an output 800 wide with a proportional height.
    The code computes the height [Math.round (800 / 2000) = 0], sizes the
    canvas 800 by 0, gets [null] from [toBlob], and, its [if (blob)]
    having no other branch, selects nothing and notifies nothing. *)
Theorem processImage_drops_strip :
  scaled_dimensions 2000 1 = (800, 0) ∧
  canvas_toBlob html_canvas_runtime 800 0 (file_type strip_2000x1) = None ∧
  completion (processImage html_canvas_runtime strip_2000x1) initial_app = Normal tt ∧
  selectedFile (st (exec (processImage html_canvas_runtime strip_2000x1) initial_app))
    = None ∧
  notification (st (exec (processImage html_canvas_runtime strip_2000x1) initial_app))
    = None.
Proof.
  split; [reflexivity|]. split; [reflexivity|].
  assert (Hrt : empty_canvas_gives_null html_canvas_runtime).
  { intros w h ty [-> | ->]; cbn [html_canvas_runtime canvas_toBlob];
      [reflexivity|]. destruct (w =? 0); reflexivity. }
  assert (Hstrip : (800 < 2000 ∧ 0 <= 1 ∧ 1600 * 1 < 2000) ∨
                   (0 <= 2000 <= 800 ∧ 800 < 1 ∧ 1600 * 2000 < 1)) by (left; lia).
  destruct (processImage_selects_nothing_for_strips html_canvas_runtime strip_2000x1
              2000 1 initial_app eq_refl Hstrip eq_refl Hrt)
    as [Hdone Hst].
  split; [exact Hdone|]. rewrite Hst. split; reflexivity.
Qed.

End OversizedImages.
